(** * creator-score-miniapp: score client, credential aggregator,
      refresh controller and share-image route

    A shallow embedding of

    - [src/hooks/useBadges.ts] (second part: [getScoreForAddress],
      [getHighestScore]),
    - [src/hooks/useScoreRefresh.ts] ([useScoreRefresh]),
    - [src/app/api/share-image/[talentUUID]/route.tsx] ([GET]),

    with the properties the specification states about them.

    JavaScript numbers are IEEE 754 binary64 values: they are modelled by
    Rocq's primitive [float], whose operations are the processor's.
    JavaScript strings are modelled by [string]; a character stands for the
    UTF-16 code unit with the same code (0..255). *)

From Stdlib Require Import ZArith List String Ascii Bool Lia Floats.
From Stdlib Require DecimalString.
Import ListNotations.

(* ================================================================== *)
(** * JavaScript numbers *)
(* ================================================================== *)

Module JSNumber.

Local Open Scope float_scope.

(** [Number.isNaN] / the global [isNaN] on a number. *)
Definition isNaN (x : float) : bool := is_nan x.

(** [x > y], [x >= y], [x <= y] as JavaScript evaluates them on numbers. *)
Definition gt (x y : float) : bool := y <? x.
Definition ge (x y : float) : bool := y <=? x.
Definition le (x y : float) : bool := x <=? y.

(** ** The order of binary64, through a lexicographic key *)

Local Open Scope Z_scope.

Definition sf_key (x : spec_float) : Z * Z * Z :=
  match x with
  | S754_nan => (0, 0, 0)
  | S754_zero _ => (0, 0, 0)
  | S754_infinity true => (-2, 0, 0)
  | S754_infinity false => (2, 0, 0)
  | S754_finite true m e => (-1, - e, - Zpos m)
  | S754_finite false m e => (1, e, Zpos m)
  end.

Definition key_lt (a b : Z * Z * Z) : Prop :=
  let '(a1, a2, a3) := a in
  let '(b1, b2, b3) := b in
  a1 < b1 \/ (a1 = b1 /\ (a2 < b2 \/ (a2 = b2 /\ a3 < b3))).

Definition sf_num (x : spec_float) : Prop := x <> S754_nan.

Ltac cmp_cases :=
  repeat match goal with
         | |- context [Z.compare ?a ?b] =>
             destruct (Z.compare_spec a b)
         | |- context [Pos.compare_cont Eq ?a ?b] =>
             change (Pos.compare_cont Eq a b) with (Pos.compare a b);
             destruct (Pos.compare_spec a b)
         end.

Lemma SFltb_key (x y : spec_float) :
  sf_num x -> sf_num y ->
  (SFltb x y = true <-> key_lt (sf_key x) (sf_key y)).
Proof.
  unfold sf_num, SFltb.
  destruct x as [[]|[]| |[] mx ex], y as [[]|[]| |[] my ey];
    intros Hx Hy; try congruence; cbn; cmp_cases; cbn;
    split; intros Hk; try discriminate; try reflexivity; try lia.
Qed.

Lemma SFleb_key (x y : spec_float) :
  sf_num x -> sf_num y ->
  (SFleb x y = true <-> ~ key_lt (sf_key y) (sf_key x)).
Proof.
  unfold sf_num, SFleb.
  destruct x as [[]|[]| |[] mx ex], y as [[]|[]| |[] my ey];
    intros Hx Hy; try congruence; cbn; cmp_cases; cbn;
    split; intros Hk; try discriminate; try reflexivity; try lia.
Qed.

Lemma SFltb_nan_l y : SFltb S754_nan y = false.
Proof. reflexivity. Qed.

Lemma SFltb_nan_r x : SFltb x S754_nan = false.
Proof. destruct x as [[]|[]| |[] m e]; reflexivity. Qed.

Lemma SFleb_nan_r x : SFleb x S754_nan = false.
Proof. destruct x as [[]|[]| |[] m e]; reflexivity. Qed.

Lemma SFleb_nan_l y : SFleb S754_nan y = false.
Proof. reflexivity. Qed.

Lemma SFeqb_refl x : sf_num x -> SFeqb x x = true.
Proof.
  unfold sf_num, SFeqb.
  destruct x as [[]|[]| |[] m e]; intros Hx; try congruence;
    try reflexivity; cbn;
    rewrite Z.compare_refl;
    change (Pos.compare_cont Eq m m) with (Pos.compare m m);
    rewrite Pos.compare_refl; reflexivity.
Qed.

(** ** Rounding keeps the sign: sums of non-negative numbers *)

Definition sf_nonneg (x : spec_float) : bool :=
  match x with
  | S754_zero _ => true
  | S754_infinity s => negb s
  | S754_nan => false
  | S754_finite s _ _ => negb s
  end.

Lemma SFleb_zero_nonneg x : SFleb (S754_zero false) x = sf_nonneg x.
Proof. destruct x as [[]|[]| |[] m e]; reflexivity. Qed.

Lemma shr_1_nonneg mrs : 0 <= shr_m mrs -> 0 <= shr_m (shr_1 mrs).
Proof.
  destruct mrs as [m r s]; cbn.
  destruct m as [|[p|p|]|[p|p|]]; cbn; lia.
Qed.

Lemma iter_shr_1_nonneg n mrs :
  0 <= shr_m mrs -> 0 <= shr_m (iter_pos shr_1 n mrs).
Proof.
  revert mrs; induction n as [n IH|n IH|]; intros mrs Hm; cbn.
  - apply IH, IH, shr_1_nonneg, Hm.
  - apply IH, IH, Hm.
  - apply shr_1_nonneg, Hm.
Qed.

Lemma shr_nonneg mrs e n :
  0 <= shr_m mrs -> 0 <= shr_m (fst (shr mrs e n)).
Proof.
  intros Hm; destruct n as [|n|n]; cbn; trivial.
  apply iter_shr_1_nonneg, Hm.
Qed.

Lemma shr_fexp_nonneg pr em m e l :
  0 <= m -> 0 <= shr_m (fst (shr_fexp pr em m e l)).
Proof.
  intros Hm; unfold shr_fexp; apply shr_nonneg.
  destruct l as [|[]]; exact Hm.
Qed.

Lemma round_nearest_even_nonneg m l :
  0 <= m -> 0 <= round_nearest_even m l.
Proof.
  intros Hm; destruct l as [|[]]; cbn; try lia.
  destruct (Z.even m); lia.
Qed.

Lemma binary_round_aux_nonneg pr em m e l :
  0 <= m -> sf_nonneg (binary_round_aux pr em false m e l) = true.
Proof.
  intros Hm; unfold binary_round_aux.
  pose proof (shr_fexp_nonneg pr em m e l Hm) as H1.
  destruct (shr_fexp pr em m e l) as [mrs' e']; cbn in H1.
  pose proof (shr_fexp_nonneg pr em _ e' loc_Exact
                (round_nearest_even_nonneg _ (loc_of_shr_record mrs') H1)) as H2.
  destruct (shr_fexp pr em _ e' loc_Exact) as [mrs'' e'']; cbn in H2.
  destruct (shr_m mrs'') as [|q|q]; cbn; try reflexivity; try lia.
  destruct (e'' <=? em - pr); reflexivity.
Qed.

Lemma binary_normalize_nonneg pr em m e :
  0 <= m -> sf_nonneg (binary_normalize pr em m e false) = true.
Proof.
  intros Hm; destruct m as [|q|q]; cbn; try reflexivity; try lia.
  unfold binary_round.
  destruct (shl_align q e _) as [mz ez].
  apply binary_round_aux_nonneg; lia.
Qed.

Lemma SFadd_nonneg pr em x y :
  sf_nonneg x = true -> sf_nonneg y = true ->
  sf_nonneg (SFadd pr em x y) = true.
Proof.
  destruct x as [[]|[]| |[] mx ex], y as [[]|[]| |[] my ey];
    cbn [sf_nonneg negb]; intros Hx Hy; try discriminate;
    try reflexivity.
  unfold SFadd. apply binary_normalize_nonneg.
  cbn [cond_Zopp]; lia.
Qed.

Local Close Scope Z_scope.

(** ** The same facts on numbers *)

Definition num_key (x : float) : Z * Z * Z := sf_key (Prim2SF x).

Lemma isNaN_false x : isNaN x = false <-> sf_num (Prim2SF x).
Proof.
  unfold isNaN, is_nan; rewrite eqb_spec; split.
  - intros H Hn; rewrite Hn in H; discriminate.
  - intros H; rewrite SFeqb_refl by exact H; reflexivity.
Qed.

Lemma ltb_num x y : (x <? y) = true -> isNaN x = false /\ isNaN y = false.
Proof.
  rewrite ltb_spec, !isNaN_false; unfold sf_num; intros H; split; intros Hn;
    rewrite Hn in H; [rewrite SFltb_nan_l in H|rewrite SFltb_nan_r in H];
    discriminate.
Qed.

Lemma leb_num x y : (x <=? y) = true -> isNaN x = false /\ isNaN y = false.
Proof.
  rewrite leb_spec, !isNaN_false; unfold sf_num; intros H; split; intros Hn;
    rewrite Hn in H; [rewrite SFleb_nan_l in H|rewrite SFleb_nan_r in H];
    discriminate.
Qed.

Lemma ltb_key x y :
  isNaN x = false -> isNaN y = false ->
  ((x <? y) = true <-> key_lt (num_key x) (num_key y)).
Proof.
  rewrite !isNaN_false, ltb_spec; apply SFltb_key.
Qed.

Lemma leb_key x y :
  isNaN x = false -> isNaN y = false ->
  ((x <=? y) = true <-> ~ key_lt (num_key y) (num_key x)).
Proof.
  rewrite !isNaN_false, leb_spec; apply SFleb_key.
Qed.

Ltac key_order :=
  unfold num_key in *;
  repeat match goal with
         | H : context [sf_key ?x] |- _ =>
             destruct (sf_key x) as [[? ?] ?]
         | |- context [sf_key ?x] =>
             destruct (sf_key x) as [[? ?] ?]
         end;
  unfold key_lt in *; lia.

(** [!(x > y)] on two numbers that are not NaN is [x <= y]. *)
Lemma not_gt_le x y :
  isNaN x = false -> isNaN y = false -> gt x y = false -> le x y = true.
Proof.
  unfold gt, le; intros Hx Hy Hgt.
  apply (leb_key _ _ Hx Hy); intros Hk.
  apply (ltb_key _ _ Hy Hx) in Hk; congruence.
Qed.

Lemma le_refl x : isNaN x = false -> le x x = true.
Proof.
  intros Hx; unfold le; apply (leb_key _ _ Hx Hx); key_order.
Qed.

Lemma le_trans x y z : le x y = true -> le y z = true -> le x z = true.
Proof.
  unfold le; intros Hxy Hyz.
  destruct (leb_num _ _ Hxy) as [Hx Hy], (leb_num _ _ Hyz) as [_ Hz].
  apply (leb_key _ _ Hx Hy) in Hxy; apply (leb_key _ _ Hy Hz) in Hyz.
  apply (leb_key _ _ Hx Hz); key_order.
Qed.

Lemma gt_le x y : gt x y = true -> le y x = true.
Proof.
  unfold gt, le; intros Hgt.
  destruct (ltb_num _ _ Hgt) as [Hy Hx].
  apply (ltb_key _ _ Hy Hx) in Hgt; apply (leb_key _ _ Hy Hx); key_order.
Qed.

Lemma le_gt_trans x y z : le x y = true -> gt z y = true -> gt z x = true.
Proof.
  unfold gt, le; intros Hxy Hyz.
  destruct (leb_num _ _ Hxy) as [Hx Hy], (ltb_num _ _ Hyz) as [_ Hz].
  apply (leb_key _ _ Hx Hy) in Hxy; apply (ltb_key _ _ Hy Hz) in Hyz.
  apply (ltb_key _ _ Hx Hz); key_order.
Qed.

(** [0 <= x] and [0 <= y] give [0 <= x + y]: no rounding changes a sign. *)
Lemma add_nonneg x y :
  le 0 x = true -> le 0 y = true -> le 0 (x + y) = true.
Proof.
  unfold le; rewrite !leb_spec, add_spec.
  change (Prim2SF 0) with (S754_zero false).
  rewrite !SFleb_zero_nonneg; apply SFadd_nonneg.
Qed.

Lemma gt_zero_nonneg x : gt x 0 = true -> le 0 x = true.
Proof. apply gt_le. Qed.

End JSNumber.

(* ================================================================== *)
(** * JavaScript strings *)
(* ================================================================== *)

Module JSString.

Local Open Scope string_scope.
Local Open Scope char_scope.

(** A value of type [string | null | undefined] is [option string];
    it is truthy when it is a string that is not empty. *)
Definition truthy (v : option string) : bool :=
  match v with
  | Some s => negb (String.eqb s "")
  | None => false
  end.

(** [v || d] for a string-valued [v]. *)
Definition orElse (v : option string) (d : string) : string :=
  match v with
  | Some s => if String.eqb s "" then d else s
  | None => d
  end.

Definition code (c : ascii) : N := N_of_ascii c.

Definition inRange (lo hi : N) (c : ascii) : bool :=
  (lo <=? code c)%N && (code c <=? hi)%N.

Definition isDigit (c : ascii) : bool := inRange 48 57 c.

(** [s.charCodeAt(0)]: the code of the first unit, [None] for [NaN]
    (the string is empty). *)
Definition charCodeAt0 (s : string) : option N :=
  match s with
  | EmptyString => None
  | String c _ => Some (code c)
  end.

(** [s.toLowerCase()]: on code units below 256 only the letters
    [A-Z], [U+00C0-U+00D6] and [U+00D8-U+00DE] have a lower-case form,
    32 above. *)
Definition lowerChar (c : ascii) : ascii :=
  if inRange 65 90 c || inRange 192 214 c || inRange 216 222 c
  then ascii_of_N (code c + 32)
  else c.

Fixpoint toLowerCase (s : string) : string :=
  match s with
  | EmptyString => EmptyString
  | String c r => String (lowerChar c) (toLowerCase r)
  end.

(** [s.includes(c)] for a one-character search string. *)
Fixpoint includes (c : ascii) (s : string) : bool :=
  match s with
  | EmptyString => false
  | String d r => Ascii.eqb d c || includes c r
  end.

(** [s.replace(c, "")] for a one-character pattern string: only the
    first occurrence is replaced. *)
Fixpoint removeFirst (c : ascii) (s : string) : string :=
  match s with
  | EmptyString => EmptyString
  | String d r => if Ascii.eqb d c then r else String d (removeFirst c r)
  end.

(** [s.replace(/[^...]+/g, "")]: every unit outside the class goes. *)
Fixpoint keepOnly (keep : ascii -> bool) (s : string) : string :=
  match s with
  | EmptyString => EmptyString
  | String d r =>
      if keep d then String d (keepOnly keep r) else keepOnly keep r
  end.

(** ** [parseFloat] *)

Definition isWhiteSpace (c : ascii) : bool :=
  inRange 9 13 c || (code c =? 32)%N || (code c =? 160)%N.

Fixpoint trimStart (s : string) : string :=
  match s with
  | String c r => if isWhiteSpace c then trimStart r else s
  | EmptyString => EmptyString
  end.

(** The longest run of decimal digits at the start of [s], as the
    number it denotes and how many digits it has, and the rest. *)
Fixpoint digitsFrom (acc : Z) (n : Z) (s : string) : Z * Z * string :=
  match s with
  | String c r =>
      if isDigit c
      then digitsFrom (10 * acc + Z.of_N (code c - 48)) (n + 1) r
      else (acc, n, s)
  | EmptyString => (acc, n, s)
  end.

(** The decimal number [m * 10 ^ e10] (with [m >= 0]) rounded to the
    nearest binary64, ties to even.  For a negative exponent the
    quotient is computed with at least 63 bits and a sticky bit, which
    the rounding of [binary_normalize] then treats as the exact value. *)
Definition dec2float (neg : bool) (m e10 : Z) : float :=
  let sgn (z : Z) := if neg then (- z)%Z else z in
  if (m =? 0)%Z then (if neg then neg_zero else zero)
  else if (0 <=? e10)%Z then
    SF2Prim (binary_normalize prec emax (sgn (m * 10 ^ e10)%Z) 0 false)
  else
    let d := (10 ^ (- e10))%Z in
    let s := Z.max 0 (Z.log2 d + 64 - Z.log2 m) in
    let n := (m * 2 ^ s)%Z in
    let q := (n / d)%Z in
    let sticky := if (n mod d =? 0)%Z then 0%Z else 1%Z in
    SF2Prim (binary_normalize prec emax (sgn (2 * q + sticky)%Z)
               (- s - 1) false).

(** An exponent part [e|E [+|-] digits] at the start of [s], if there
    is a complete one; otherwise the exponent is 0. *)
Definition exponentPart (s : string) : Z :=
  match s with
  | String c r =>
      if Ascii.eqb c "e" || Ascii.eqb c "E" then
        let '(neg, r') :=
          match r with
          | String "+" t => (false, t)
          | String "-" t => (true, t)
          | _ => (false, r)
          end in
        let '(x, n, _) := digitsFrom 0 0 r' in
        if (n =? 0)%Z then 0%Z else if neg then (- x)%Z else x
      else 0%Z
  | EmptyString => 0%Z
  end.

Definition parseFloat (input : string) : float :=
  let s1 := trimStart input in
  let '(neg, s2) :=
    match s1 with
    | String "+" r => (false, r)
    | String "-" r => (true, r)
    | _ => (false, s1)
    end in
  if String.prefix "Infinity" s2
  then (if neg then neg_infinity else infinity)
  else
    let '(ip, ni, s3) := digitsFrom 0 0 s2 in
    let '(m, nf, s4) :=
      match s3 with
      | String "." r => digitsFrom ip 0 r
      | _ => (ip, 0%Z, s3)
      end in
    if ((ni =? 0) && (nf =? 0))%Z then nan
    else dec2float neg m (exponentPart s4 - nf).

Example parseFloat_samples :
  parseFloat "1.5" = 1.5%float
  /\ parseFloat "0.1" = 0x1.999999999999ap-4%float
  /\ parseFloat "-0" = neg_zero
  /\ parseFloat "  12px" = 12%float
  /\ parseFloat "1.2.3" = 0x1.3333333333333p+0%float
  /\ parseFloat ".5" = 0.5%float
  /\ parseFloat "5." = 5%float
  /\ parseFloat "1e3" = 1000%float
  /\ parseFloat "9007199254740993" = 9007199254740992%float
  /\ parseFloat "1e400" = infinity
  /\ parseFloat "-Infinity" = neg_infinity
  /\ parseFloat "" = nan
  /\ parseFloat "-" = nan
  /\ parseFloat "." = nan
  /\ parseFloat "abc" = nan.
Proof. vm_compute; repeat split; reflexivity. Qed.

Example toLowerCase_sample : toLowerCase "0xAbCdEF01" = "0xabcdef01"%string.
Proof. reflexivity. Qed.

End JSString.

(* ================================================================== *)
(** * Exceptions *)
(* ================================================================== *)

Module JSError.

(** What a [catch] receives: an [Error] with its message, or any other
    value. *)
Inductive Thrown :=
| ErrorObject (message : string)
| OtherValue.

(** [error instanceof Error ? error.message : fallback] *)
Definition messageOf (reason : Thrown) (fallback : string) : string :=
  match reason with
  | ErrorObject message => message
  | OtherValue => fallback
  end.

(** A computation that returns a value or throws. *)
Inductive Completion (A : Type) :=
| Normal (value : A)
| Throws (reason : Thrown).

Arguments Normal {A} value.
Arguments Throws {A} reason.

(** [await] in a [try] block: the rest runs on the value, a throw skips
    it. *)
Definition andThen {A B : Type} (c : Completion A)
           (k : A -> Completion B) : Completion B :=
  match c with
  | Normal value => k value
  | Throws reason => Throws reason
  end.

(** [promise.catch(() => fallback)] *)
Definition orCatch {A : Type} (c : Completion A) (fallback : A) : A :=
  match c with
  | Normal value => value
  | Throws _ => fallback
  end.

End JSError.

(* ================================================================== *)
(** * Credential aggregator
      ([GET] of [route.tsx], lines 101-161) *)
(* ================================================================== *)

Module Earnings.

Import JSNumber JSString.
Local Open Scope string_scope.
Local Open Scope float_scope.

Record CredentialPoint := {
  slug : option string;
  readable_value : option string;
  uom : option string
}.

Record CredentialGroup := {
  issuer : string;
  points : list CredentialPoint
}.

(** ** The value parser (lines 126-136) *)

(** The class [[0-9.KM-]] of the regular expression. *)
Definition numericChar (c : ascii) : bool :=
  isDigit c || Ascii.eqb c "." || Ascii.eqb c "K" || Ascii.eqb c "M"
  || Ascii.eqb c "-".

(** [cleanValue.replace(/[^0-9.KM-]+/g, "")] *)
Definition stripNonNumeric (cleanValue : string) : string :=
  keepOnly numericChar cleanValue.

Definition parseValue (cleanValue : string) : float :=
  let numericValue := stripNonNumeric cleanValue in
  if includes "K" numericValue then
    parseFloat (removeFirst "K" numericValue) * 1000
  else if includes "M" numericValue then
    parseFloat (removeFirst "M" numericValue) * 1000000
  else
    parseFloat numericValue.

(** Modelled from the spec: [convertEthToUsdc] of [@/lib/utils] is not
    among the sources; the specification has ETH-denominated values
    converted "using the supplied rate", 1 ETH at rate 3000 giving 3000:
    the value times the rate. *)
Definition convertEthToUsdc (value ethPrice : float) : float :=
  value * ethPrice.

(** ** The issuer totals: a JavaScript [Map], in insertion order *)

Definition IssuerTotals := list (string * float).

(** [m.set(k, v)]: an existing key keeps its place and takes the new
    value, a new key goes last. *)
Fixpoint map_set (k : string) (v : float) (m : IssuerTotals)
  : IssuerTotals :=
  match m with
  | [] => [(k, v)]
  | (k', v') :: r =>
      if String.eqb k' k then (k, v) :: r else (k', v') :: map_set k v r
  end.

Definition keys (m : IssuerTotals) : list string := map fst m.
Definition values (m : IssuerTotals) : list float := map snd m.

Section Aggregation.

(** [isEarningsCredential] of [@/lib/total-earnings-config]: the
    predicate on slugs that tags a credential as earnings. *)
Variable isEarningsCredential : string -> bool.

(** The exchange rate [getEthUsdcPrice()] returned. *)
Variable ethPrice : float.

Definition earningsPoint (point : CredentialPoint) : bool :=
  isEarningsCredential (orElse (slug point) "").

(** The body of the inner [forEach] (lines 116-151), as the new value
    of [issuerTotal]. *)
Definition pointStep (issuerTotal : float) (point : CredentialPoint)
  : float :=
  if negb (earningsPoint point) then issuerTotal
  else if negb (truthy (readable_value point))
          || negb (truthy (uom point)) then issuerTotal
  else
    match readable_value point, uom point with
    | Some cleanValue, Some unit =>
        let value := parseValue cleanValue in
        if isNaN value then issuerTotal
        else
          let usdValue :=
            if String.eqb unit "ETH" then convertEthToUsdc value ethPrice
            else if String.eqb unit "USDC" then value
            else 0 in
          issuerTotal + usdValue
    | _, _ => issuerTotal
    end.

Definition groupTotal (credentialGroup : CredentialGroup) : float :=
  fold_left pointStep (points credentialGroup) 0.

Definition hasEarningsCredentials (credentialGroup : CredentialGroup)
  : bool :=
  existsb earningsPoint (points credentialGroup).

(** The body of the outer [forEach] (lines 103-156). *)
Definition groupStep (issuerTotals : IssuerTotals)
           (credentialGroup : CredentialGroup) : IssuerTotals :=
  if negb (hasEarningsCredentials credentialGroup) then issuerTotals
  else
    let issuerTotal := groupTotal credentialGroup in
    if gt issuerTotal 0
    then map_set (issuer credentialGroup) issuerTotal issuerTotals
    else issuerTotals.

Definition issuerTotalsOf (credentials : list CredentialGroup)
  : IssuerTotals :=
  fold_left groupStep credentials [].

(** [Array.from(issuerTotals.values()).reduce((sum, v) => sum + v, 0)] *)
Definition sumValues (issuerTotals : IssuerTotals) : float :=
  fold_left (fun sum value => sum + value) (values issuerTotals) 0.

Definition totalEarnings (credentials : list CredentialGroup) : float :=
  sumValues (issuerTotalsOf credentials).

(** The total of an issuer as the specification words it: the
    contributions of all the points of all the groups of that issuer,
    summed. *)
Definition issuerSum (credentials : list CredentialGroup) (name : string)
  : float :=
  fold_left pointStep
    (flat_map points
       (filter (fun g => String.eqb (issuer g) name) credentials)) 0.

(** A group writes an entry when it has an earnings-tagged point and its
    total is positive. *)
Definition included (credentialGroup : CredentialGroup) : bool :=
  hasEarningsCredentials credentialGroup
  && gt (groupTotal credentialGroup) 0.

(** ** Facts on the parser *)

Lemma keepOnly_filter (keep : ascii -> bool) (s : string) :
  list_ascii_of_string (keepOnly keep s)
  = filter keep (list_ascii_of_string s).
Proof.
  induction s as [|c r IH]; cbn; [reflexivity|].
  destruct (keep c); cbn; rewrite IH; reflexivity.
Qed.

Lemma numericChar_cases (c : ascii) :
  numericChar c = true <->
  (isDigit c = true \/ c = "."%char \/ c = "K"%char \/ c = "M"%char
   \/ c = "-"%char).
Proof.
  unfold numericChar; rewrite !orb_true_iff, !Ascii.eqb_eq; tauto.
Qed.

Lemma includes_app_last (c d : ascii) (p : string) :
  includes c (p ++ String d EmptyString)
  = includes c p || Ascii.eqb d c.
Proof.
  induction p as [|e r IH]; cbn.
  - apply orb_false_r.
  - rewrite IH, orb_assoc; reflexivity.
Qed.

Lemma removeFirst_app_last (c : ascii) (p : string) :
  includes c p = false ->
  removeFirst c (p ++ String c EmptyString) = p.
Proof.
  induction p as [|e r IH]; cbn.
  - rewrite Ascii.eqb_refl; reflexivity.
  - intros H; apply orb_false_iff in H as [He Hr].
    rewrite He, (IH Hr); reflexivity.
Qed.

Lemma parseValue_trailing_K (s p : string) :
  stripNonNumeric s = p ++ "K" -> includes "K" p = false ->
  parseValue s = parseFloat p * 1000.
Proof.
  intros Hs Hp; unfold parseValue; rewrite Hs.
  rewrite includes_app_last, Hp; cbn [orb Ascii.eqb Bool.eqb].
  rewrite (removeFirst_app_last "K" p Hp); reflexivity.
Qed.

Lemma parseValue_trailing_M (s p : string) :
  stripNonNumeric s = p ++ "M" ->
  includes "K" p = false -> includes "M" p = false ->
  parseValue s = parseFloat p * 1000000.
Proof.
  intros Hs HK HM; unfold parseValue; rewrite Hs.
  rewrite !includes_app_last, HK, HM; cbn [orb Ascii.eqb Bool.eqb].
  rewrite (removeFirst_app_last "M" p HM); reflexivity.
Qed.

Lemma includes_stripNonNumeric (c : ascii) (s : string) :
  numericChar c = true ->
  includes c (stripNonNumeric s) = includes c s.
Proof.
  intros Hc; unfold stripNonNumeric.
  induction s as [|d r IH]; cbn; [reflexivity|].
  destruct (numericChar d) eqn:Hd; cbn; [rewrite IH; reflexivity|].
  rewrite IH; destruct (Ascii.eqb_spec d c) as [->|_]; [congruence|].
  reflexivity.
Qed.

Lemma parseValue_plain (s : string) :
  includes "K" s = false -> includes "M" s = false ->
  parseValue s = parseFloat (stripNonNumeric s).
Proof.
  intros HK HM; unfold parseValue.
  rewrite !includes_stripNonNumeric, HK, HM by reflexivity; reflexivity.
Qed.

(** ** Facts on one point *)

Lemma truthy_Some (s : string) : s <> "" -> truthy (Some s) = true.
Proof.
  intros Hs; unfold truthy; apply negb_true_iff, String.eqb_neq, Hs.
Qed.

Lemma pointStep_not_earnings (issuerTotal : float) (point : CredentialPoint) :
  earningsPoint point = false -> pointStep issuerTotal point = issuerTotal.
Proof. intros H; unfold pointStep; rewrite H; reflexivity. Qed.

Lemma pointStep_missing (issuerTotal : float) (point : CredentialPoint) :
  truthy (readable_value point) = false \/ truthy (uom point) = false ->
  pointStep issuerTotal point = issuerTotal.
Proof.
  intros H; unfold pointStep.
  destruct (earningsPoint point); cbn; [|reflexivity].
  destruct H as [H|H]; rewrite H; cbn; [reflexivity|].
  rewrite orb_true_r; reflexivity.
Qed.

Lemma pointStep_NaN (issuerTotal : float) (point : CredentialPoint)
      (cleanValue : string) :
  readable_value point = Some cleanValue ->
  isNaN (parseValue cleanValue) = true ->
  pointStep issuerTotal point = issuerTotal.
Proof.
  intros Hrv Hnan; unfold pointStep; rewrite Hrv.
  destruct (earningsPoint point); cbn [negb]; [|reflexivity].
  destruct (negb (truthy (Some cleanValue)) || negb (truthy (uom point)));
    [reflexivity|].
  destruct (uom point); [|reflexivity].
  rewrite Hnan; reflexivity.
Qed.

Lemma pointStep_value (issuerTotal : float) (point : CredentialPoint)
      (cleanValue unit : string) :
  earningsPoint point = true ->
  readable_value point = Some cleanValue -> cleanValue <> "" ->
  uom point = Some unit -> unit <> "" ->
  isNaN (parseValue cleanValue) = false ->
  pointStep issuerTotal point
  = issuerTotal
    + (if String.eqb unit "ETH" then parseValue cleanValue * ethPrice
       else if String.eqb unit "USDC" then parseValue cleanValue
       else 0).
Proof.
  intros He Hrv Hne Hu Hune Hnan; unfold pointStep.
  rewrite He, Hrv, Hu, (truthy_Some _ Hne), (truthy_Some _ Hune), Hnan.
  reflexivity.
Qed.

(** ** Facts on the map *)

Lemma map_set_new (k : string) (v : float) (m : IssuerTotals) :
  ~ In k (keys m) -> map_set k v m = (m ++ [(k, v)])%list.
Proof.
  induction m as [|[k' v'] r IH]; cbn; intros Hk; [reflexivity|].
  destruct (String.eqb_spec k' k) as [->|Hne]; [tauto|].
  rewrite IH by tauto; reflexivity.
Qed.

Lemma map_set_keys (k : string) (v : float) (m : IssuerTotals) (k' : string) :
  In k' (keys (map_set k v m)) <-> k' = k \/ In k' (keys m).
Proof.
  induction m as [|[k1 v1] r IH]; cbn.
  - intuition congruence.
  - destruct (String.eqb_spec k1 k) as [->|Hne]; cbn.
    + intuition congruence.
    + rewrite IH; intuition congruence.
Qed.

Lemma map_set_NoDup (k : string) (v : float) (m : IssuerTotals) :
  NoDup (keys m) -> NoDup (keys (map_set k v m)).
Proof.
  induction m as [|[k1 v1] r IH]; cbn; intros Hnd.
  - constructor; [intros []|constructor].
  - inversion Hnd as [|? ? Hnotin Hnd']; subst.
    destruct (String.eqb_spec k1 k) as [->|Hne]; cbn.
    + constructor; assumption.
    + constructor; [|apply IH, Hnd'].
      fold (keys (map_set k v r)); rewrite map_set_keys.
      intros [->|Hin]; [congruence|exact (Hnotin Hin)].
Qed.

Lemma map_set_In (k : string) (v : float) (m : IssuerTotals)
      (e : string * float) :
  In e (map_set k v m) -> e = (k, v) \/ In e m.
Proof.
  induction m as [|[k1 v1] r IH]; cbn.
  - intuition congruence.
  - destruct (String.eqb_spec k1 k) as [->|Hne]; cbn.
    + intuition congruence.
    + intros [<-|Hin]; [right; left; reflexivity|].
      destruct (IH Hin); [left|right; right]; assumption.
Qed.

(** ** Facts on the outer loop *)

Lemma groupStep_no_earnings (m : IssuerTotals) (g : CredentialGroup) :
  hasEarningsCredentials g = false -> groupStep m g = m.
Proof. intros H; unfold groupStep; rewrite H; reflexivity. Qed.

Lemma groupStep_included (m : IssuerTotals) (g : CredentialGroup) :
  groupStep m g
  = if included g then map_set (issuer g) (groupTotal g) m else m.
Proof.
  unfold groupStep, included.
  destruct (hasEarningsCredentials g); cbn; reflexivity.
Qed.

(** What every entry of the map is: the total of a group that has an
    earnings-tagged point and a positive total. *)
Definition entryFrom (credentials : list CredentialGroup)
           (e : string * float) : Prop :=
  exists g, In g credentials /\ issuer g = fst e /\ groupTotal g = snd e
            /\ hasEarningsCredentials g = true /\ gt (snd e) 0 = true.

Lemma fold_groupStep_inv (credentials : list CredentialGroup)
      (m : IssuerTotals) :
  NoDup (keys m) ->
  NoDup (keys (fold_left groupStep credentials m))
  /\ forall e, In e (fold_left groupStep credentials m) ->
               In e m \/ entryFrom credentials e.
Proof.
  revert m; induction credentials as [|g gs IH]; cbn [fold_left];
    intros m Hnd.
  - split; [exact Hnd|]; intros e He; left; exact He.
  - rewrite groupStep_included.
    destruct (included g) eqn:Hinc.
    + destruct (IH _ (map_set_NoDup (issuer g) (groupTotal g) m Hnd))
        as [Hnd' Hall].
      split; [exact Hnd'|]; intros e He.
      destruct (Hall e He) as [Hin|(g' & Hg' & Hrest)].
      * apply map_set_In in Hin as [->|Hin]; [|left; exact Hin].
        right; exists g; unfold included in Hinc.
        apply andb_true_iff in Hinc as [Hhas Hpos].
        cbn; intuition.
      * right; exists g'; cbn; intuition.
    + destruct (IH _ Hnd) as [Hnd' Hall].
      split; [exact Hnd'|]; intros e He.
      destruct (Hall e He) as [Hin|(g' & Hg' & Hrest)]; [left; exact Hin|].
      right; exists g'; cbn; intuition.
Qed.

Lemma fold_groupStep_distinct (credentials : list CredentialGroup)
      (m : IssuerTotals) :
  NoDup (map issuer credentials) ->
  (forall g, In g credentials -> ~ In (issuer g) (keys m)) ->
  fold_left groupStep credentials m
  = (m ++ map (fun g => (issuer g, groupTotal g))
            (filter included credentials))%list.
Proof.
  revert m; induction credentials as [|g gs IH]; cbn [fold_left map filter];
    intros m Hnd Hfresh.
  - rewrite app_nil_r; reflexivity.
  - inversion Hnd as [|? ? Hnotin Hnd']; subst.
    rewrite groupStep_included.
    destruct (included g) eqn:Hinc.
    + rewrite map_set_new by (apply Hfresh; left; reflexivity).
      rewrite IH; [cbn [map]; rewrite <- app_assoc; reflexivity|exact Hnd'|].
      intros g' Hg'; unfold keys; rewrite map_app, in_app_iff; cbn.
      intros [Hin|[Heq|[]]].
      * apply (Hfresh g'); [right; exact Hg'|exact Hin].
      * apply Hnotin; rewrite Heq; apply in_map, Hg'.
    + apply IH; [exact Hnd'|].
      intros g' Hg'; apply Hfresh; right; exact Hg'.
Qed.

Lemma sum_nonneg (l : list float) (acc : float) :
  le 0 acc = true -> Forall (fun v => gt v 0 = true) l ->
  le 0 (fold_left (fun sum value => sum + value) l acc) = true.
Proof.
  revert acc; induction l as [|v r IH]; cbn; intros acc Hacc Hall;
    [exact Hacc|].
  inversion Hall as [|? ? Hv Hr]; subst.
  apply IH; [|exact Hr].
  apply add_nonneg; [exact Hacc|apply gt_zero_nonneg, Hv].
Qed.

Lemma sumValues_nonneg (m : IssuerTotals) :
  Forall (fun v => gt v 0 = true) (values m) -> le 0 (sumValues m) = true.
Proof.
  intros Hall; unfold sumValues; apply sum_nonneg; [|exact Hall].
  reflexivity.
Qed.

Lemma issuerTotalsOf_entries (credentials : list CredentialGroup) :
  NoDup (keys (issuerTotalsOf credentials))
  /\ forall e, In e (issuerTotalsOf credentials) -> entryFrom credentials e.
Proof.
  destruct (fold_groupStep_inv credentials [] (NoDup_nil _)) as [Hnd Hall].
  split; [exact Hnd|]; intros e He.
  destruct (Hall e He) as [[]|H]; exact H.
Qed.

Lemma filter_issuer_distinct (credentials : list CredentialGroup)
      (g : CredentialGroup) :
  NoDup (map issuer credentials) -> In g credentials ->
  filter (fun g' => String.eqb (issuer g') (issuer g)) credentials = [g].
Proof.
  induction credentials as [|h t IH]; cbn; intros Hnd Hin; [destruct Hin|].
  inversion Hnd as [|? ? Hnotin Hnd']; subst.
  destruct Hin as [->|Hin].
  - rewrite String.eqb_refl; f_equal.
    clear IH Hnd; induction t as [|h' t' IHt]; cbn; [reflexivity|].
    destruct (String.eqb_spec (issuer h') (issuer g)) as [Heq|Hne].
    + exfalso; apply Hnotin; left; exact Heq.
    + apply IHt; [|inversion Hnd'; assumption].
      intros Hin'; apply Hnotin; right; exact Hin'.
  - destruct (String.eqb_spec (issuer h) (issuer g)) as [Heq|Hne].
    + exfalso; apply Hnotin; rewrite Heq; apply in_map, Hin.
    + apply IH; assumption.
Qed.

Lemma issuerSum_distinct (credentials : list CredentialGroup)
      (g : CredentialGroup) :
  NoDup (map issuer credentials) -> In g credentials ->
  issuerSum credentials (issuer g) = groupTotal g.
Proof.
  intros Hnd Hin; unfold issuerSum.
  rewrite (filter_issuer_distinct credentials g Hnd Hin); cbn.
  rewrite app_nil_r; reflexivity.
Qed.

Lemma issuerTotalsOf_distinct (credentials : list CredentialGroup) :
  NoDup (map issuer credentials) ->
  issuerTotalsOf credentials
  = map (fun g => (issuer g, issuerSum credentials (issuer g)))
        (filter included credentials).
Proof.
  intros Hnd; unfold issuerTotalsOf.
  rewrite fold_groupStep_distinct; [cbn [app]|exact Hnd|intros g _ []].
  apply map_ext_in; intros g Hg; apply filter_In in Hg as [Hg _].
  rewrite (issuerSum_distinct credentials g Hnd Hg); reflexivity.
Qed.

Lemma totalEarnings_skips (pre post : list CredentialGroup)
      (g : CredentialGroup) :
  hasEarningsCredentials g = false ->
  totalEarnings (pre ++ g :: post) = totalEarnings (pre ++ post).
Proof.
  intros Hg; unfold totalEarnings, issuerTotalsOf.
  rewrite !fold_left_app; cbn [fold_left].
  rewrite (groupStep_no_earnings _ g Hg); reflexivity.
Qed.

Lemma totalEarnings_nonneg (credentials : list CredentialGroup) :
  le 0 (totalEarnings credentials) = true.
Proof.
  unfold totalEarnings; apply sumValues_nonneg.
  destruct (issuerTotalsOf_entries credentials) as [_ Hall].
  unfold values; apply Forall_forall; intros v Hv.
  apply in_map_iff in Hv as (e & <- & He).
  destruct (Hall e He) as (g & _ & _ & _ & _ & Hpos); exact Hpos.
Qed.

(** ** The parser, as the specification states it *)

(** C3.  The parser keeps of [readable_value] exactly the characters of
    the class digits, [.], [K], [M], [-], in their order, and reads the
    number off what it kept: a trailing [K] (a trailing [M]) after a
    prefix without suffix letters multiplies the number [parseFloat] reads
    off the prefix by 1,000 (by 1,000,000), and a text without [K] and
    [M] is the number [parseFloat] reads off the kept characters; a
    value that is not a number leaves the issuer's total as it was, so it
    contributes zero, and the parser is a total function: it never throws;
    ["1.5K"] is 1500, ["2M"] is 2,000,000, ["$1,250"] is 1250 and ["abc"]
    contributes 0. *)
Theorem earnings_parser_spec :
  (forall s, list_ascii_of_string (stripNonNumeric s)
             = filter numericChar (list_ascii_of_string s))
  /\ (forall c, numericChar c = true <->
                (isDigit c = true \/ c = "."%char \/ c = "K"%char
                 \/ c = "M"%char \/ c = "-"%char))
  /\ (forall s p, stripNonNumeric s = p ++ "K" -> includes "K" p = false ->
                  parseValue s = parseFloat p * 1000)
  /\ (forall s p, stripNonNumeric s = p ++ "M" ->
                  includes "K" p = false -> includes "M" p = false ->
                  parseValue s = parseFloat p * 1000000)
  /\ (forall s, includes "K" s = false -> includes "M" s = false ->
                parseValue s = parseFloat (stripNonNumeric s))
  /\ (forall issuerTotal point cleanValue,
         readable_value point = Some cleanValue ->
         isNaN (parseValue cleanValue) = true ->
         pointStep issuerTotal point = issuerTotal)
  /\ parseValue "1.5K" = 1500
  /\ parseValue "2M" = 2000000
  /\ parseValue "$1,250" = 1250
  /\ isNaN (parseValue "abc") = true
  /\ (forall name tag unit,
         groupTotal {| issuer := name;
                       points := [{| slug := tag;
                                     readable_value := Some "abc";
                                     uom := unit |}] |} = 0).
Proof.
  split; [exact (keepOnly_filter numericChar)|].
  split; [exact numericChar_cases|].
  split; [exact parseValue_trailing_K|].
  split; [exact parseValue_trailing_M|].
  split; [exact parseValue_plain|].
  split; [exact pointStep_NaN|].
  split; [vm_compute; reflexivity|].
  split; [vm_compute; reflexivity|].
  split; [vm_compute; reflexivity|].
  split; [vm_compute; reflexivity|].
  intros name tag unit; unfold groupTotal; cbn [points fold_left].
  apply pointStep_NaN with (cleanValue := "abc"); [reflexivity|].
  vm_compute; reflexivity.
Qed.

(** ** The aggregation, as the code computes it *)

(** C4 (amended).  A qualifying point adds its parsed value times the rate
    for ["ETH"], the parsed value for ["USDC"] and zero for any other
    unit; a point that is not earnings-tagged or lacks [readable_value] or
    [uom] leaves the total as it was.  The map has one entry per key, and
    every entry is the positive total of a group that has an
    earnings-tagged point.  When the issuers of the groups are pairwise
    distinct, the entries are, in order, the per-issuer sums of the groups
    with an earnings-tagged point and a positive total, and an issuer is a
    key exactly when its group is such a group.  A group with no
    earnings-tagged point changes nothing, and [totalEarnings >= 0]. *)
Theorem total_earnings_aggregation (credentials : list CredentialGroup) :
  (forall issuerTotal point cleanValue unit,
      earningsPoint point = true ->
      readable_value point = Some cleanValue -> cleanValue <> "" ->
      uom point = Some unit -> unit <> "" ->
      isNaN (parseValue cleanValue) = false ->
      pointStep issuerTotal point
      = issuerTotal
        + (if String.eqb unit "ETH" then parseValue cleanValue * ethPrice
           else if String.eqb unit "USDC" then parseValue cleanValue
           else 0))
  /\ (forall issuerTotal point,
         earningsPoint point = false
         \/ truthy (readable_value point) = false
         \/ truthy (uom point) = false ->
         pointStep issuerTotal point = issuerTotal)
  /\ NoDup (keys (issuerTotalsOf credentials))
  /\ (forall e, In e (issuerTotalsOf credentials) -> entryFrom credentials e)
  /\ (NoDup (map issuer credentials) ->
      issuerTotalsOf credentials
      = map (fun g => (issuer g, issuerSum credentials (issuer g)))
            (filter included credentials)
      /\ forall g, In g credentials ->
                   (In (issuer g) (keys (issuerTotalsOf credentials))
                    <-> included g = true))
  /\ (forall pre g post,
         credentials = (pre ++ g :: post)%list ->
         hasEarningsCredentials g = false ->
         totalEarnings credentials = totalEarnings (pre ++ post))
  /\ totalEarnings credentials
     = fold_left (fun sum value => sum + value)
                 (values (issuerTotalsOf credentials)) 0
  /\ le 0 (totalEarnings credentials) = true.
Proof.
  split; [exact pointStep_value|].
  split.
  { intros issuerTotal point [H|H].
    - apply pointStep_not_earnings, H.
    - apply pointStep_missing, H. }
  destruct (issuerTotalsOf_entries credentials) as [Hnd Hall].
  split; [exact Hnd|]. split; [exact Hall|].
  split.
  { intros Hdist; split; [apply issuerTotalsOf_distinct, Hdist|].
    intros g Hg; split.
    - intros Hin; unfold keys in Hin.
      apply in_map_iff in Hin as (e & Hfst & He).
      destruct (Hall e He) as (g' & Hg' & Hiss & Htot & Hhas & Hpos).
      assert (g' = g) as ->.
      { pose proof (filter_issuer_distinct credentials g Hdist Hg) as Hf.
        assert (In g' [g]) as [Heq|[]]; [|symmetry; exact Heq].
        rewrite <- Hf; apply filter_In; split; [exact Hg'|].
        apply String.eqb_eq; congruence. }
      unfold included; rewrite Hhas, Htot, Hpos; reflexivity.
    - intros Hinc; rewrite (issuerTotalsOf_distinct credentials Hdist).
      unfold keys; rewrite map_map; cbn [fst].
      apply in_map, filter_In; split; assumption. }
  split.
  { intros pre g post -> Hg; apply totalEarnings_skips, Hg. }
  split; [reflexivity|apply totalEarnings_nonneg].
Qed.

End Aggregation.

(** ** Sample data *)

(** A sample earnings predicate: one slug is earnings-tagged. *)
Definition sampleIsEarnings (s : string) : bool :=
  String.eqb s "creator_rewards".

Definition samplePoint (value unit : string) : CredentialPoint :=
  {| slug := Some "creator_rewards";
     readable_value := Some value;
     uom := Some unit |}.

Definition otherPoint (value unit : string) : CredentialPoint :=
  {| slug := Some "followers";
     readable_value := Some value;
     uom := Some unit |}.

(** Two groups of the same issuer. *)
Definition sameIssuerGroups : list CredentialGroup :=
  [ {| issuer := "Zora"; points := [samplePoint "1" "USDC"] |};
    {| issuer := "Zora"; points := [samplePoint "2" "USDC"] |} ].

(** Three groups of three issuers, the last without an earnings-tagged
    point. *)
Definition distinctGroups : list CredentialGroup :=
  [ {| issuer := "Zora";
       points := [samplePoint "1.5K" "USDC"; samplePoint "1" "ETH";
                  samplePoint "abc" "USDC"; samplePoint "7" "DAI"] |};
    {| issuer := "Mirror"; points := [samplePoint "-3" "USDC"] |};
    {| issuer := "Farcaster"; points := [otherPoint "2M" "USDC"] |} ].

Lemma earnings_parser_witness :
  parseValue "$1.5K earned" = parseFloat "1.5" * 1000
  /\ parseValue "2M" = parseFloat "2" * 1000000
  /\ parseValue "$1,250 USDC" = parseFloat "1250"
  /\ pointStep sampleIsEarnings 3000 42 (samplePoint "abc" "USDC") = 42.
Proof.
  destruct (earnings_parser_spec sampleIsEarnings 3000)
    as (_ & _ & HK & HM & Hplain & Hnan & _).
  split; [apply HK; reflexivity|].
  split; [apply HM; reflexivity|].
  split; [apply (Hplain "$1,250 USDC"); reflexivity|].
  apply Hnan with (cleanValue := "abc"); reflexivity.
Defined.

Lemma total_earnings_witness :
  pointStep sampleIsEarnings 3000 0 (samplePoint "1" "ETH") = 0 + 1 * 3000
  /\ issuerTotalsOf sampleIsEarnings 3000 distinctGroups
     = [("Zora", issuerSum sampleIsEarnings 3000 distinctGroups "Zora")]
  /\ totalEarnings sampleIsEarnings 3000 distinctGroups
     = totalEarnings sampleIsEarnings 3000 (firstn 2 distinctGroups).
Proof.
  destruct (total_earnings_aggregation sampleIsEarnings 3000 distinctGroups)
    as (Hval & _ & _ & _ & Hdist & Hskip & _).
  split.
  - apply (Hval 0 (samplePoint "1" "ETH") "1" "ETH");
      try reflexivity; discriminate.
  - split.
    + apply Hdist.
      repeat constructor; cbn; intuition discriminate.
    + apply (Hskip (firstn 2 distinctGroups)
                   {| issuer := "Farcaster";
                      points := [otherPoint "2M" "USDC"] |} []);
        reflexivity.
Defined.

(** C4, as stated, fails: two groups of one issuer are not summed, the
    later positive total replaces the earlier one. *)
Lemma same_issuer_groups_not_summed :
  issuerSum sampleIsEarnings 3000 sameIssuerGroups "Zora" = 3
  /\ issuerTotalsOf sampleIsEarnings 3000 sameIssuerGroups = [("Zora", 2)]
  /\ totalEarnings sampleIsEarnings 3000 sameIssuerGroups = 2.
Proof. vm_compute; repeat split; reflexivity. Qed.

End Earnings.

(* ================================================================== *)
(** * Score client
      ([getScoreForAddress] and [getHighestScore] of [useBadges.ts]) *)
(* ================================================================== *)

Module ScoreClient.

Import JSNumber JSString JSError.
Local Open Scope string_scope.
Local Open Scope float_scope.

(** An entry of [LEVEL_RANGES]. *)
Record LevelRange := {
  min : float;
  max : float;
  name : string
}.

(** [BuilderScore]: [calculating], [calculatingEnqueuedAt] and [error] are
    absent ([None]) from the records that do not set them. *)
Record ScoreRecord := {
  score : float;
  level : nat;
  levelName : string;
  lastCalculatedAt : option string;
  walletAddress : option string;
  calculating : option bool;
  calculatingEnqueuedAt : option string;
  error : option string
}.

(** The [score] object of the endpoint's JSON. *)
Record ScorePayload := {
  points : option float;
  last_calculated_at : option string;
  calculating_score : option bool;
  calculating_score_enqueued_at : option string
}.

(** The JSON object the endpoint answers with: [{score: ...} | {error}]. *)
Record ScoreResponse := {
  data_error : option string;
  data_score : option ScorePayload
}.

(** How [await fetch(...)] followed by [await response.json()] ends: one
    of the two rejects (the network failed, the body is not JSON), or the
    body parsed to an object.  A body that is no object makes the read of
    [data.error] throw inside the same [try]: it is a [Rejected] too. *)
Inductive FetchOutcome :=
| Rejected (reason : Thrown)
| Resolved (data : ScoreResponse).

(** The literal every failing path returns, with its message. *)
Definition errorRecord (message : string) : ScoreRecord :=
  {| score := 0;
     level := 1;
     levelName := "Level 1";
     lastCalculatedAt := None;
     walletAddress := None;
     calculating := None;
     calculatingEnqueuedAt := None;
     error := Some message |}.

(** [!s.error]: the truthiness JavaScript tests. *)
Definition hasError (s : ScoreRecord) : bool := truthy (error s).

(** [array.find(pred)], as the position of the element found: the
    elements of an array literal are distinct objects, so a reference to
    one is its position. *)
Fixpoint findFrom {A : Type} (i : nat) (pred : A -> bool) (l : list A)
  : option nat :=
  match l with
  | [] => None
  | x :: r => if pred x then Some i else findFrom (S i) pred r
  end.

(** [array.map((x, i) => f i x)], positions counted from [i]. *)
Fixpoint mapFrom {A B : Type} (i : nat) (f : nat -> A -> B) (l : list A)
  : list B :=
  match l with
  | [] => []
  | x :: r => f i x :: mapFrom (S i) f r
  end.

Section Client.

(** [LEVEL_RANGES] of [@/lib/constants]: a table with a first entry. *)
Variable firstRange : LevelRange.
Variable otherRanges : list LevelRange.

Definition LEVEL_RANGES : list LevelRange := firstRange :: otherRanges.

(** [points >= range.min && points <= range.max] *)
Definition inLevel (points : float) (range : LevelRange) : bool :=
  ge points (min range) && le points (max range).

(** [LEVEL_RANGES.find(...) || LEVEL_RANGES[0]], as a position. *)
Definition levelInfo (points : float) : nat :=
  match findFrom 0 (inLevel points) LEVEL_RANGES with
  | Some i => i
  | None => 0
  end.

(** [data.score?.field]: [None] when either is missing. *)
Definition scoreField {A : Type} (data : ScoreResponse)
           (field : ScorePayload -> option A) : option A :=
  match data_score data with
  | Some s => field s
  | None => None
  end.

(** [v ?? d] *)
Definition orDefault {A : Type} (v : option A) (d : A) : A :=
  match v with
  | Some x => x
  | None => d
  end.

(** Lines 79-100: the record of a response without an error. *)
Definition scoreRecordOf (data : ScoreResponse) (address : string)
  : ScoreRecord :=
  let points := orDefault (scoreField data points) 0 in
  let lastCalculatedAt := scoreField data last_calculated_at in
  let calculating := orDefault (scoreField data calculating_score) false in
  let calculatingEnqueuedAt :=
    scoreField data calculating_score_enqueued_at in
  let info := levelInfo points in
  {| score := points;
     level := info + 1;
     levelName := name (nth info LEVEL_RANGES firstRange);
     lastCalculatedAt := lastCalculatedAt;
     walletAddress := Some address;
     calculating := Some calculating;
     calculatingEnqueuedAt := calculatingEnqueuedAt;
     error := None |}.

(** The body of [getScoreForAddress]; [fetch address scorerSlug] is how
    the request for that address and scorer ends. *)
Definition getScoreForAddress
           (fetch : string -> string -> FetchOutcome)
           (address scorerSlug : string) : ScoreRecord :=
  match fetch address scorerSlug with
  | Rejected reason => errorRecord (messageOf reason "Failed to fetch score")
  | Resolved data =>
      match data_error data with
      | Some message =>
          if truthy (Some message) then errorRecord message
          else scoreRecordOf data address
      | None => scoreRecordOf data address
      end
  end.

(** [scores]: the records of [Promise.all] over the lower-cased
    addresses; [net i] is the network as the [i]-th request meets it. *)
Definition scoresOf (net : nat -> string -> string -> FetchOutcome)
           (addresses : list string) (scorerSlug : string)
  : list ScoreRecord :=
  mapFrom 0 (fun i addr =>
               getScoreForAddress (net i) (toLowerCase addr) scorerSlug)
          addresses.

(** The callback of [validScores.reduce]. *)
Definition higher (highest current : ScoreRecord) : ScoreRecord :=
  if gt (score current) (score highest) then current else highest.

Definition getHighestScore (net : nat -> string -> string -> FetchOutcome)
           (addresses : list string) (scorerSlug : string) : ScoreRecord :=
  match addresses with
  | [] => errorRecord "No wallet addresses provided"
  | _ :: _ =>
      let scores := scoresOf net addresses scorerSlug in
      let validScores := filter (fun s => negb (hasError s)) scores in
      match validScores with
      | [] => errorRecord "No valid scores found"
      | first :: rest => fold_left higher rest first
      end
  end.

(** JSON carries no NaN: the points of every response are numbers. *)
Definition numericOutcome (outcome : FetchOutcome) : Prop :=
  match outcome with
  | Rejected _ => True
  | Resolved data =>
      forall p, scoreField data points = Some p -> isNaN p = false
  end.

(** ** Facts on [find], [map] and [toLowerCase] *)

Lemma findFrom_Some {A : Type} (pred : A -> bool) (l : list A) :
  forall i k, findFrom i pred l = Some k ->
  exists d x, k = (i + d)%nat /\ nth_error l d = Some x /\ pred x = true
              /\ forall j y, (j < d)%nat -> nth_error l j = Some y ->
                             pred y = false.
Proof.
  induction l as [|x r IH]; cbn; intros i k H; [discriminate|].
  destruct (pred x) eqn:Hx.
  - injection H as <-; exists 0%nat, x.
    repeat split; [lia|exact Hx|]; intros j y Hj; lia.
  - destruct (IH _ _ H) as (d & x' & -> & Hnth & Hp & Hbefore).
    exists (S d), x'; repeat split; [lia|exact Hnth|exact Hp|].
    intros [|j] y Hj Hy; cbn in Hy.
    + injection Hy as <-; exact Hx.
    + apply (Hbefore j y); [lia|exact Hy].
Qed.

Lemma findFrom_None {A : Type} (pred : A -> bool) (l : list A) :
  forall i, findFrom i pred l = None ->
  forall x, In x l -> pred x = false.
Proof.
  induction l as [|y r IH]; cbn; intros i H x Hin; [destruct Hin|].
  destruct (pred y) eqn:Hy; [discriminate|].
  destruct Hin as [<-|Hin]; [exact Hy|exact (IH _ H x Hin)].
Qed.

Lemma mapFrom_In {A B : Type} (f : nat -> A -> B) (l : list A) :
  forall i y, In y (mapFrom i f l) -> exists j x, In x l /\ y = f j x.
Proof.
  induction l as [|x r IH]; cbn; intros i y Hin; [destruct Hin|].
  destruct Hin as [<-|Hin].
  - exists i, x; split; [left|]; reflexivity.
  - destruct (IH _ _ Hin) as (j & x' & Hx' & ->).
    exists j, x'; split; [right; exact Hx'|reflexivity].
Qed.

Lemma mapFrom_nth {A B : Type} (f : nat -> A -> B) (l : list A) :
  forall i k x, nth_error l k = Some x ->
  nth_error (mapFrom i f l) k = Some (f (i + k)%nat x).
Proof.
  induction l as [|y r IH]; intros i [|k] x H; cbn in *; try discriminate.
  - injection H as <-; rewrite Nat.add_0_r; reflexivity.
  - rewrite (IH (S i) k x H); do 2 f_equal; lia.
Qed.

Lemma mapFrom_length {A B : Type} (f : nat -> A -> B) (l : list A) :
  forall i, List.length (mapFrom i f l) = List.length l.
Proof.
  induction l as [|y r IH]; intros i; cbn; [|rewrite IH]; reflexivity.
Qed.

Lemma lowerChar_idempotent (c : ascii) :
  lowerChar (lowerChar c) = lowerChar c.
Proof.
  destruct c as [[] [] [] [] [] [] [] []]; reflexivity.
Qed.

Lemma toLowerCase_idempotent (s : string) :
  toLowerCase (toLowerCase s) = toLowerCase s.
Proof.
  induction s as [|c r IH]; cbn; [reflexivity|].
  rewrite lowerChar_idempotent, IH; reflexivity.
Qed.

(** ** Facts on one fetch *)

Lemma getScoreForAddress_cases
      (fetch : string -> string -> FetchOutcome) (address slug : string) :
  let r := getScoreForAddress fetch address slug in
  (exists message, r = errorRecord message)
  \/ (exists data, fetch address slug = Resolved data
                   /\ truthy (data_error data) = false
                   /\ r = scoreRecordOf data address).
Proof.
  unfold getScoreForAddress.
  destruct (fetch address slug) as [reason|data].
  - left; eexists; reflexivity.
  - destruct (data_error data) as [message|] eqn:He.
    + destruct (truthy (Some message)) eqn:Ht.
      * left; eexists; reflexivity.
      * right; exists data; rewrite He; auto.
    + right; exists data; rewrite He; auto.
Qed.

Lemma getScoreForAddress_numeric
      (fetch : string -> string -> FetchOutcome) (address slug : string) :
  numericOutcome (fetch address slug) ->
  isNaN (score (getScoreForAddress fetch address slug)) = false.
Proof.
  intros Hnum.
  destruct (getScoreForAddress_cases fetch address slug)
    as [[message ->]|(data & Hf & _ & ->)]; [reflexivity|].
  rewrite Hf in Hnum; cbn in Hnum |- *.
  destruct (scoreField data points) as [p|] eqn:Hp; cbn;
    [apply Hnum; reflexivity|reflexivity].
Qed.

(** ** Facts on the reduction *)

Lemma fold_higher_In (rest : list ScoreRecord) :
  forall h, In (fold_left higher rest h) (h :: rest).
Proof.
  induction rest as [|c t IH]; intros h; cbn [fold_left]; [left; reflexivity|].
  destruct (IH (higher h c)) as [Heq|Hin]; [|right; right; exact Hin].
  rewrite <- Heq; unfold higher.
  destruct (gt (score c) (score h)); [right; left|left]; reflexivity.
Qed.

Lemma fold_higher_first (rest : list ScoreRecord) :
  forall pre h mid,
    isNaN (score h) = false ->
    Forall (fun s => isNaN (score s) = false) rest ->
    (forall v, In v pre -> gt (score h) (score v) = true) ->
    (forall v, In v mid -> le (score v) (score h) = true) ->
    exists pre' post',
      (pre ++ h :: mid ++ rest
       = pre' ++ fold_left higher rest h :: post')%list
      /\ (forall v, In v pre' ->
                    gt (score (fold_left higher rest h)) (score v) = true)
      /\ (forall v, In v post' ->
                    le (score v) (score (fold_left higher rest h)) = true).
Proof.
  induction rest as [|c t IH]; intros pre h mid Hh Hrest Hpre Hmid.
  - exists pre, mid; rewrite app_nil_r; cbn; auto.
  - inversion Hrest as [|? ? Hc Ht]; subst.
    cbn [fold_left]; unfold higher at 2 4 6.
    destruct (gt (score c) (score h)) eqn:Hgt.
    + destruct (IH (pre ++ h :: mid)%list c [] Hc Ht) as (pre' & post' & He & H1 & H2).
      * intros v Hv; apply in_app_iff in Hv as [Hv|[<-|Hv]].
        -- apply le_gt_trans with (y := score h); [|exact Hgt].
           apply gt_le, Hpre, Hv.
        -- exact Hgt.
        -- apply le_gt_trans with (y := score h); [apply Hmid, Hv|exact Hgt].
      * intros v [].
      * exists pre', post'; split; [|split; assumption].
        rewrite <- He, <- app_assoc; reflexivity.
    + destruct (IH pre h (mid ++ [c])%list Hh Ht Hpre) as (pre' & post' & He & H1 & H2).
      * intros v Hv; apply in_app_iff in Hv as [Hv|[<-|[]]];
          [apply Hmid, Hv|apply not_gt_le; assumption].
      * exists pre', post'; split; [|split; assumption].
        rewrite <- He, <- app_assoc; reflexivity.
Qed.

Lemma scoresOf_numeric (net : nat -> string -> string -> FetchOutcome)
      (addresses : list string) (slug : string) :
  (forall i a s, numericOutcome (net i a s)) ->
  Forall (fun s => isNaN (score s) = false) (scoresOf net addresses slug).
Proof.
  intros Hnum; apply Forall_forall; intros s Hs.
  apply mapFrom_In in Hs as (j & a & _ & ->).
  apply getScoreForAddress_numeric, Hnum.
Qed.

(** ** The score client, as the specification states it *)

(** C6.  For a payload with [points = p] the level information is the
    first range of the table, in its order, whose interval [min, max],
    bounds included, contains [p], and the first range of the table when
    none does; the level number is the position of that range, counted
    from 1. *)
Theorem level_is_first_matching_range
        (fetch : string -> string -> FetchOutcome) (address slug : string)
        (data : ScoreResponse) (payload : ScorePayload) (p : float) :
  fetch address slug = Resolved data ->
  truthy (data_error data) = false ->
  data_score data = Some payload ->
  points payload = Some p ->
  let r := getScoreForAddress fetch address slug in
  score r = p
  /\ (forall range, inLevel p range = true
                    <-> (min range <=? p) = true /\ (p <=? max range) = true)
  /\ ((exists i range,
          nth_error LEVEL_RANGES i = Some range
          /\ inLevel p range = true
          /\ (forall j other, (j < i)%nat ->
                              nth_error LEVEL_RANGES j = Some other ->
                              inLevel p other = false)
          /\ level r = (i + 1)%nat
          /\ levelName r = name range)
      \/ ((forall range, In range LEVEL_RANGES -> inLevel p range = false)
          /\ level r = 1%nat
          /\ levelName r = name firstRange)).
Proof.
  intros Hf Herr Hscore Hpoints r.
  assert (r = scoreRecordOf data address) as ->.
  { subst r; unfold getScoreForAddress; rewrite Hf.
    destruct (data_error data) as [message|]; [rewrite Herr|]; reflexivity. }
  unfold scoreRecordOf, scoreField; rewrite Hscore, Hpoints.
  cbn [orDefault score level levelName].
  split; [reflexivity|].
  split; [intros range; unfold inLevel, ge, le; apply andb_true_iff|].
  unfold levelInfo.
  destruct (findFrom 0 (inLevel p) LEVEL_RANGES) as [k|] eqn:Hfind.
  - left; apply findFrom_Some in Hfind
      as (d & range & -> & Hnth & Hin & Hbefore).
    exists d, range; cbn [Nat.add].
    repeat split; try assumption.
    rewrite (nth_error_nth _ _ _ Hnth); reflexivity.
  - right; split; [exact (findFrom_None _ _ _ Hfind)|].
    split; reflexivity.
Qed.

(** C7.  The single-address fetch is a total function: it returns a
    record on every outcome of the request.  When the request or the
    parsing of its body fails, the record carries the failure's message in
    [error]; and whenever [error] is present in the record it returns,
    [score] is 0 and [level] is 1. *)
Theorem fetch_score_fails_soft
        (fetch : string -> string -> FetchOutcome) (address slug : string) :
  let r := getScoreForAddress fetch address slug in
  (forall reason, fetch address slug = Rejected reason ->
                  error r = Some (messageOf reason "Failed to fetch score")
                  /\ r = errorRecord (messageOf reason "Failed to fetch score"))
  /\ (error r <> None -> score r = 0 /\ level r = 1%nat)
  /\ (hasError r = true -> score r = 0 /\ level r = 1%nat).
Proof.
  intros r; split.
  { intros reason Hf; subst r; unfold getScoreForAddress; rewrite Hf.
    split; reflexivity. }
  assert (error r <> None -> score r = 0 /\ level r = 1%nat) as Hinv.
  { destruct (getScoreForAddress_cases fetch address slug)
      as [[message Hr]|(data & _ & _ & Hr)]; fold r in Hr; rewrite Hr.
    - intros _; split; reflexivity.
    - intros Hne; exfalso; apply Hne; reflexivity. }
  split; [exact Hinv|].
  intros Hhas; apply Hinv; intros Hnone.
  unfold hasError in Hhas; rewrite Hnone in Hhas; discriminate.
Qed.

(** C5.  The lookup fetches every address; it drops the records whose
    [error] is set (JavaScript's [!s.error]: a message that is not empty)
    and returns the first of the remaining records, in the order of the
    addresses, that has the greatest score: every record before it has a
    strictly smaller score, every record after it a score that is not
    greater.  When the list is empty or every record has an error it
    returns an error record with score 0. *)
Theorem highest_score_first_maximum
        (net : nat -> string -> string -> FetchOutcome)
        (addresses : list string) (slug : string) :
  (forall i a s, numericOutcome (net i a s)) ->
  let scores := scoresOf net addresses slug in
  let validScores := filter (fun s => negb (hasError s)) scores in
  let r := getHighestScore net addresses slug in
  (forall i addr,
      nth_error addresses i = Some addr ->
      nth_error scores i
      = Some (getScoreForAddress (net i) (toLowerCase addr) slug))
  /\ List.length scores = List.length addresses
  /\ (forall s, In s validScores <-> In s scores /\ hasError s = false)
  /\ (validScores = [] ->
      score r = 0 /\ hasError r = true /\ level r = 1%nat)
  /\ (validScores <> [] ->
      exists pre post,
        validScores = (pre ++ r :: post)%list
        /\ (forall v, In v pre -> gt (score r) (score v) = true)
        /\ (forall v, In v post -> le (score v) (score r) = true)).
Proof.
  intros Hnum scores validScores r.
  split; [intros i addr Hnth; exact (mapFrom_nth _ _ 0 i addr Hnth)|].
  split; [apply mapFrom_length|].
  split.
  { intros s; unfold validScores; rewrite filter_In, negb_true_iff; tauto. }
  assert (Forall (fun s => isNaN (score s) = false) validScores) as Hvalid.
  { apply Forall_forall; intros s Hs; apply filter_In in Hs as [Hs _].
    revert s Hs; apply Forall_forall, scoresOf_numeric, Hnum. }
  subst r; unfold getHighestScore.
  destruct addresses as [|a0 rest0].
  { split; [intros _; repeat split; reflexivity|].
    intros Hne; exfalso; apply Hne; reflexivity. }
  fold scores; fold validScores.
  destruct validScores as [|first rest] eqn:Hv.
  - split; [intros _; repeat split; reflexivity|].
    intros Hne; exfalso; apply Hne; reflexivity.
  - split; [discriminate|]; intros _.
    inversion Hvalid as [|? ? Hfirst Hrest]; subst.
    destruct (fold_higher_first rest [] first [] Hfirst Hrest)
      as (pre & post & He & H1 & H2); [intros v []|intros v []|].
    exists pre, post; auto.
Qed.

(** C10.  Every address is lower-cased before its fetch, so a record
    without an error, among the fetched ones or returned by the lookup,
    has as [walletAddress] the lower-cased form of one of the addresses,
    which is none of the strings that lower-casing changes. *)
Theorem wallet_address_is_lowercased
        (net : nat -> string -> string -> FetchOutcome)
        (addresses : list string) (slug : string) :
  let r := getHighestScore net addresses slug in
  (forall i addr,
      nth_error addresses i = Some addr ->
      nth_error (scoresOf net addresses slug) i
      = Some (getScoreForAddress (net i) (toLowerCase addr) slug))
  /\ (forall s,
         In s (scoresOf net addresses slug) \/ s = r ->
         error s = None ->
         exists a, In a addresses
                   /\ walletAddress s = Some (toLowerCase a)
                   /\ forall b, toLowerCase b <> b ->
                                walletAddress s <> Some b).
Proof.
  intros r0.
  split; [intros i addr Hnth; exact (mapFrom_nth _ _ 0 i addr Hnth)|].
  intros r Hr0 Hnone.
  assert (In r (scoresOf net addresses slug)) as Hin.
  { destruct Hr0 as [Hin| ->]; [exact Hin|].
    subst r0; unfold getHighestScore in *.
    destruct addresses as [|a0 rest0]; [discriminate|].
    destruct (filter _ _) as [|first rest] eqn:Hv; [discriminate|].
    pose proof (fold_higher_In rest first) as Hmem.
    rewrite <- Hv in Hmem; apply filter_In in Hmem as [Hmem _]; exact Hmem. }
  apply mapFrom_In in Hin as (j & a & Ha & Hr).
  exists a; split; [exact Ha|].
  destruct (getScoreForAddress_cases (net j) (toLowerCase a) slug)
    as [[message Hm]|(data & _ & _ & Hd)]; rewrite <- Hr in *.
  - rewrite Hm in Hnone; discriminate.
  - rewrite Hd; cbn [walletAddress scoreRecordOf].
    split; [reflexivity|].
    intros b Hb Heq; injection Heq as Heq; apply Hb.
    rewrite <- Heq; apply toLowerCase_idempotent.
Qed.

End Client.

(** ** Sample data *)

(** A sample table of six contiguous bands. *)
Definition sampleFirst : LevelRange :=
  {| min := 0; max := 39; name := "Level 1" |}.

Definition sampleOthers : list LevelRange :=
  [ {| min := 40; max := 79; name := "Level 2" |};
    {| min := 80; max := 119; name := "Level 3" |};
    {| min := 120; max := 169; name := "Level 4" |};
    {| min := 170; max := 249; name := "Level 5" |};
    {| min := 250; max := infinity; name := "Level 6" |} ].

Definition pointsResponse (p : float) : ScoreResponse :=
  {| data_error := None;
     data_score := Some {| points := Some p;
                           last_calculated_at := Some "2025-01-01";
                           calculating_score := Some false;
                           calculating_score_enqueued_at := None |} |}.

Definition errorResponse (message : string) : ScoreResponse :=
  {| data_error := Some message; data_score := None |}.

(** Three requests: 10 points, 25 points, an error. *)
Definition sampleNet (i : nat) (address slug : string) : FetchOutcome :=
  match i with
  | 0%nat => Resolved (pointsResponse 10)
  | 1%nat => Resolved (pointsResponse 25)
  | _ => Resolved (errorResponse "Score not found")
  end.

(** A request answered with 45 points. *)
Definition fetch45 (address slug : string) : FetchOutcome :=
  Resolved (pointsResponse 45).

Definition sampleAddresses : list string := ["0xAA01"; "0xBb02"; "0xCC03"].

Definition failingFetch (address slug : string) : FetchOutcome :=
  Rejected (ErrorObject "Failed to fetch").

Lemma sampleNet_numeric (i : nat) (a s : string) :
  numericOutcome (sampleNet i a s).
Proof.
  destruct i as [|[|i]]; cbn; intros p Hp;
    try discriminate; injection Hp as <-; reflexivity.
Qed.

Example highest_score_sample :
  getHighestScore sampleFirst sampleOthers sampleNet sampleAddresses
                  "creator_score"
  = scoreRecordOf sampleFirst sampleOthers (pointsResponse 25) "0xbb02"
  /\ level (getScoreForAddress sampleFirst sampleOthers fetch45
                               "0xbb02" "creator_score") = 2%nat.
Proof. split; vm_compute; reflexivity. Qed.

Example all_errors_sample :
  getHighestScore sampleFirst sampleOthers (fun _ => failingFetch)
                  sampleAddresses "creator_score"
  = errorRecord "No valid scores found".
Proof. vm_compute; reflexivity. Qed.

Lemma level_witness :
  let r := getScoreForAddress sampleFirst sampleOthers fetch45
                              "0xbb02" "creator_score" in
  score r = 45
  /\ (forall range, inLevel 45 range = true
                    <-> (min range <=? 45) = true
                        /\ (45 <=? max range) = true)
  /\ ((exists i range,
          nth_error (LEVEL_RANGES sampleFirst sampleOthers) i = Some range
          /\ inLevel 45 range = true
          /\ (forall j other, (j < i)%nat ->
                 nth_error (LEVEL_RANGES sampleFirst sampleOthers) j
                 = Some other ->
                 inLevel 45 other = false)
          /\ level r = (i + 1)%nat
          /\ levelName r = name range)
      \/ ((forall range, In range (LEVEL_RANGES sampleFirst sampleOthers) ->
                         inLevel 45 range = false)
          /\ level r = 1%nat
          /\ levelName r = name sampleFirst)).
Proof.
  apply (level_is_first_matching_range sampleFirst sampleOthers
           fetch45 "0xbb02" "creator_score" (pointsResponse 45)
           {| points := Some 45;
              last_calculated_at := Some "2025-01-01";
              calculating_score := Some false;
              calculating_score_enqueued_at := None |} 45);
    reflexivity.
Defined.

Lemma fails_soft_witness :
  let r := getScoreForAddress sampleFirst sampleOthers failingFetch
                              "0xaa01" "creator_score" in
  error r = Some "Failed to fetch" /\ score r = 0 /\ level r = 1%nat.
Proof.
  destruct (fetch_score_fails_soft sampleFirst sampleOthers failingFetch
              "0xaa01" "creator_score") as (Hrej & Hinv & _).
  split; [apply (Hrej (ErrorObject "Failed to fetch")); reflexivity|].
  apply Hinv; discriminate.
Defined.

Lemma highest_score_witness :
  let r := getHighestScore sampleFirst sampleOthers sampleNet
                           sampleAddresses "creator_score" in
  exists pre post,
    filter (fun s => negb (hasError s))
           (scoresOf sampleFirst sampleOthers sampleNet sampleAddresses
                     "creator_score")
    = (pre ++ r :: post)%list
    /\ (forall v, In v pre -> gt (score r) (score v) = true)
    /\ (forall v, In v post -> le (score v) (score r) = true).
Proof.
  destruct (highest_score_first_maximum sampleFirst sampleOthers sampleNet
              sampleAddresses "creator_score" sampleNet_numeric)
    as (_ & _ & _ & _ & Hmax).
  apply Hmax; discriminate.
Defined.

Lemma wallet_address_witness :
  let r := getHighestScore sampleFirst sampleOthers sampleNet
                           sampleAddresses "creator_score" in
  exists a, In a sampleAddresses
            /\ walletAddress r = Some (toLowerCase a)
            /\ forall b, toLowerCase b <> b -> walletAddress r <> Some b.
Proof.
  apply (wallet_address_is_lowercased sampleFirst sampleOthers sampleNet
           sampleAddresses "creator_score");
    [right|]; reflexivity.
Defined.

End ScoreClient.

(* ================================================================== *)
(** * Refresh controller ([useScoreRefresh.ts]) *)
(* ================================================================== *)

Module RefreshController.

Import JSString JSError.
Local Open Scope string_scope.

Record AnalyticsData := {
  creatorScore : option float;
  totalEarnings : option float;
  totalFollowers : option float;
  isOwnProfile : option bool;
  hasScore : option bool;
  isInCooldown : option bool;
  isCalculating : option bool
}.

(** The arguments of the hook; [onSuccess] says whether the optional
    callback was given. *)
Record Props := {
  talentUUID : string;
  onSuccess : bool;
  analyticsData : option AnalyticsData
}.

(** What [triggerScoreCalculation] resolves to. *)
Record TriggerResult := {
  success : bool;
  result_error : option string
}.

(** The three [useState] cells and the [useRef] cell. *)
Record State := {
  isRefreshing : bool;
  successMessage : option string;
  error : option string;
  hasCalledSuccessRef : bool
}.

(** The hook with what it has sent out: the calls of
    [triggerScoreCalculation] that have not settled (each with the
    arguments its closure holds), the analytics events captured, and the
    completion callbacks that [setTimeout] holds. *)
Record Controller := {
  state : State;
  inFlight : list Props;
  captured : list AnalyticsData;
  timers : nat
}.

Definition initial : Controller :=
  {| state := {| isRefreshing := false;
                 successMessage := None;
                 error := None;
                 hasCalledSuccessRef := false |};
     inFlight := [];
     captured := [];
     timers := 0 |}.

(** [clearError] *)
Definition clearError (c : Controller) : Controller :=
  {| state := {| isRefreshing := isRefreshing (state c);
                 successMessage := successMessage (state c);
                 error := None;
                 hasCalledSuccessRef := hasCalledSuccessRef (state c) |};
     inFlight := inFlight c;
     captured := captured c;
     timers := timers c |}.

(** A render of the hook hands out a closure [refreshScore] that holds
    the arguments of that render and the value [isRefreshing] had at that
    render (line 28): a constant of the closure, not the cell.  A call is
    a call through some render's closure. *)

(** [refreshScore] up to its [await] (lines 39-61), called through the
    closure of a render with arguments [props] that saw [isRefreshing] as
    [seenRefreshing]: the guard of line 39 reads that constant, the
    setters write the cells. *)
Definition refreshScore (props : Props) (seenRefreshing : bool)
           (c : Controller) : Controller :=
  if String.eqb (talentUUID props) "" || seenRefreshing then c
  else
    {| state := {| isRefreshing := true;
                   successMessage := None;
                   error := None;
                   hasCalledSuccessRef := false |};
       inFlight := inFlight c ++ [props];
       captured := match analyticsData props with
                   | Some data => captured c ++ [data]
                   | None => captured c
                   end;
       timers := timers c |}.

(** A list without its [i]-th element. *)
Fixpoint removeAt {A : Type} (i : nat) (l : list A) : list A :=
  match l, i with
  | [], _ => []
  | _ :: t, O => t
  | x :: t, S j => x :: removeAt j t
  end.

(** Lines 79-81 and 85-88: the two failure branches. *)
Definition failWith (message : string) (rest : list Props)
           (c : Controller) : Controller :=
  {| state := {| isRefreshing := false;
                 successMessage := successMessage (state c);
                 error := Some message;
                 hasCalledSuccessRef := hasCalledSuccessRef (state c) |};
     inFlight := rest;
     captured := captured c;
     timers := timers c |}.

(** [refreshScore] from its [await] on (lines 61-90), when the [i]-th of
    the calls in flight settles with [outcome]; [onSuccess] is the one of
    that call's closure, the ref is the one cell all calls share. *)
Definition settle (i : nat) (outcome : Completion TriggerResult)
           (c : Controller) : Controller :=
  match nth_error (inFlight c) i with
  | None => c
  | Some props =>
      let rest := removeAt i (inFlight c) in
      match outcome with
      | Normal result =>
          if success result then
            let schedule :=
              onSuccess props && negb (hasCalledSuccessRef (state c)) in
            {| state :=
                 {| isRefreshing := isRefreshing (state c);
                    successMessage := Some "Calculation enqueued";
                    error := error (state c);
                    hasCalledSuccessRef :=
                      if schedule then true
                      else hasCalledSuccessRef (state c) |};
               inFlight := rest;
               captured := captured c;
               timers := if schedule then S (timers c) else timers c |}
          else
            failWith (orElse (result_error result)
                             "Failed to trigger calculation") rest c
      | Throws reason =>
          failWith (messageOf reason "Failed to trigger calculation") rest c
      end
  end.

(** The timer of line 70 fires: [onSuccess] runs, its failure is logged;
    no cell of the hook changes. *)
Definition timerFires (c : Controller) : Controller :=
  {| state := state c;
     inFlight := inFlight c;
     captured := captured c;
     timers := pred (timers c) |}.

Inductive Event :=
| Refresh (props : Props) (seenRefreshing : bool)
| Settle (i : nat) (outcome : Completion TriggerResult)
| ClearError
| TimerFires.

Definition step (c : Controller) (e : Event) : Controller :=
  match e with
  | Refresh props seenRefreshing => refreshScore props seenRefreshing c
  | Settle i outcome => settle i outcome c
  | ClearError => clearError c
  | TimerFires => timerFires c
  end.

Definition run (events : list Event) (c : Controller) : Controller :=
  fold_left step events c.

(** A call through the closure of the current render: the render that
    followed the last change of the cells, so that what it saw of
    [isRefreshing] is what the cell holds. *)
Definition throughCurrentRender (c : Controller) (e : Event) : Prop :=
  match e with
  | Refresh _ seenRefreshing => seenRefreshing = isRefreshing (state c)
  | _ => True
  end.

(** Every call of a sequence of events goes through the current
    render. *)
Fixpoint allThroughCurrentRender (events : list Event) (c : Controller)
  : Prop :=
  match events with
  | [] => True
  | e :: rest =>
      throughCurrentRender c e /\ allThroughCurrentRender rest (step c e)
  end.

(** A result that is a failure: [success] false, or a throw. *)
Definition failureMessage (outcome : Completion TriggerResult)
  : option string :=
  match outcome with
  | Normal result =>
      if success result then None
      else Some (orElse (result_error result) "Failed to trigger calculation")
  | Throws reason => Some (messageOf reason "Failed to trigger calculation")
  end.

(** ** One call in flight at most, when calls go through the current
       render *)

Definition oneInFlight (c : Controller) : Prop :=
  (List.length (inFlight c) <= 1)%nat
  /\ (inFlight c <> [] -> isRefreshing (state c) = true).

Lemma oneInFlight_initial : oneInFlight initial.
Proof. split; cbn; [lia|congruence]. Qed.

Lemma refreshScore_guarded (props : Props) (seenRefreshing : bool)
      (c : Controller) :
  talentUUID props = "" \/ seenRefreshing = true ->
  refreshScore props seenRefreshing c = c.
Proof.
  intros [H|H]; unfold refreshScore; rewrite H;
    [|rewrite orb_true_r]; reflexivity.
Qed.

Lemma removeAt_length {A : Type} (l : list A) :
  forall i x, nth_error l i = Some x ->
              S (List.length (removeAt i l)) = List.length l.
Proof.
  induction l as [|y t IH]; intros [|i] x H; cbn in *; try discriminate.
  - reflexivity.
  - rewrite (IH i x H); reflexivity.
Qed.

Lemma settle_in_flight (i : nat) (outcome : Completion TriggerResult)
      (c : Controller) (props : Props) :
  nth_error (inFlight c) i = Some props ->
  inFlight (settle i outcome c) = removeAt i (inFlight c).
Proof.
  intros H; unfold settle; rewrite H.
  destruct outcome as [result|reason]; [destruct (success result)|];
    reflexivity.
Qed.

Lemma oneInFlight_step (c : Controller) (e : Event) :
  throughCurrentRender c e -> oneInFlight c -> oneInFlight (step c e).
Proof.
  intros Hcur [Hlen Hflag]; destruct e as [props seen|i outcome| |];
    cbn [step].
  - cbn in Hcur; subst seen; unfold refreshScore.
    destruct (String.eqb (talentUUID props) "" || isRefreshing (state c))
      eqn:Hg; [split; assumption|].
    apply orb_false_iff in Hg as [_ Hidle].
    assert (inFlight c = []) as Hnil.
    { destruct (inFlight c) as [|p r]; [reflexivity|].
      rewrite Hflag in Hidle by discriminate; discriminate. }
    split; cbn; [rewrite Hnil; cbn; lia|reflexivity].
  - destruct (nth_error (inFlight c) i) as [props|] eqn:Hnth.
    + pose proof (settle_in_flight i outcome c props Hnth) as Hin.
      pose proof (removeAt_length (inFlight c) i props Hnth) as Hl.
      assert (inFlight (settle i outcome c) = []) as Hnil.
      { rewrite Hin; destruct (removeAt i (inFlight c)); [reflexivity|].
        cbn in Hl; lia. }
      split; rewrite Hnil; cbn; [lia|congruence].
    + unfold settle; rewrite Hnth; split; assumption.
  - split; cbn; assumption.
  - split; cbn; assumption.
Qed.

Lemma oneInFlight_run (events : list Event) :
  forall c, allThroughCurrentRender events c -> oneInFlight c ->
            oneInFlight (run events c).
Proof.
  induction events as [|e t IH]; intros c Hall Hc; cbn; [exact Hc|].
  destruct Hall as [He Ht].
  apply IH; [exact Ht|apply oneInFlight_step; assumption].
Qed.

Lemma error_survives (c : Controller) (e : Event) (message : string) :
  error (state c) = Some message ->
  error (state (step c e)) = None ->
  e = ClearError
  \/ exists props, e = Refresh props false /\ talentUUID props <> "".
Proof.
  intros Herr Hgone; destruct e as [props seen|i outcome| |];
    cbn [step] in Hgone.
  - right; exists props; unfold refreshScore in Hgone.
    destruct (String.eqb_spec (talentUUID props) "") as [He|Hne];
      cbn [orb] in Hgone; [congruence|].
    destruct seen; [congruence|]; split; [reflexivity|exact Hne].
  - exfalso; unfold settle in Hgone.
    destruct (nth_error (inFlight c) i) as [p|]; [|congruence].
    destruct outcome as [result|reason]; [destruct (success result)|];
      cbn in Hgone; congruence.
  - left; reflexivity.
  - cbn in Hgone; congruence.
Qed.

(** ** Sample data *)

Definition sampleProps : Props :=
  {| talentUUID := "7f3c2a10-talent";
     onSuccess := true;
     analyticsData := None |}.

Definition succeeded : Completion TriggerResult :=
  Normal {| success := true; result_error := None |}.

Definition refused : Completion TriggerResult :=
  Normal {| success := false; result_error := Some "Cooldown active" |}.

(** ** The controller, as the specification states it *)

(** C8 (amended).  A call of [refresh()] through a render that has no
    identifier or that shows a refresh in flight changes nothing: no
    cell, no request sent, no event captured.  So, when every call goes
    through the closure of the current render, at most one recalculation
    request is in flight after any sequence of events, and a call made
    while one is in flight is ignored. *)
Theorem refresh_ignored_when_guarded :
  (forall props seenRefreshing c,
      talentUUID props = "" \/ seenRefreshing = true ->
      step c (Refresh props seenRefreshing) = c)
  /\ (forall events,
         allThroughCurrentRender events initial ->
         (List.length (inFlight (run events initial)) <= 1)%nat)
  /\ (forall events props,
         allThroughCurrentRender events initial ->
         inFlight (run events initial) <> [] ->
         step (run events initial)
              (Refresh props (isRefreshing (state (run events initial))))
         = run events initial).
Proof.
  split; [exact refreshScore_guarded|].
  split.
  - intros events Hall.
    exact (proj1 (oneInFlight_run events initial Hall oneInFlight_initial)).
  - intros events props Hall Hne; cbn [step].
    apply refreshScore_guarded; right.
    exact (proj2 (oneInFlight_run events initial Hall oneInFlight_initial)
                 Hne).
Qed.

Lemma refresh_ignored_witness :
  step (step initial (Refresh sampleProps false)) (Refresh sampleProps true)
  = step initial (Refresh sampleProps false)
  /\ (List.length
        (inFlight (run [Refresh sampleProps false; Refresh sampleProps true;
                        Settle 0 refused; Refresh sampleProps false]
                       initial)) <= 1)%nat
  /\ (let refreshing := run [Refresh sampleProps false] initial in
      step refreshing
           (Refresh sampleProps (isRefreshing (state refreshing)))
      = refreshing).
Proof.
  destruct refresh_ignored_when_guarded as (Hguard & Hone & Hbusy).
  split; [apply Hguard; right; reflexivity|].
  split; [apply Hone; cbn; tauto|].
  apply (Hbusy [Refresh sampleProps false] sampleProps);
    [cbn; tauto|discriminate].
Defined.

(** C8, as stated, fails: two calls through the closure of one render
    both pass the guard, the second one while the cell [isRefreshing] is
    already set and a request is in flight; two requests are then in
    flight. *)
Lemma two_calls_on_one_render :
  isRefreshing (state (step initial (Refresh sampleProps false))) = true
  /\ inFlight (step initial (Refresh sampleProps false)) = [sampleProps]
  /\ inFlight (run [Refresh sampleProps false; Refresh sampleProps false]
                   initial)
     = [sampleProps; sampleProps].
Proof. repeat split; reflexivity. Qed.

(** C2 (amended).  A call of [refresh()] with an identifier, through a
    render that shows the controller idle, enters the refreshing state,
    clears both messages and sends one request.  When a request succeeds
    the success message is set and the in-flight flag is left as it is;
    when it fails, by a throw or by a result whose [success] is false,
    the error message is set and the in-flight flag is cleared at once.  An error message is never removed by a
    response or a timer: only the manual clear action and the start of a
    new refresh remove it. *)
Theorem refresh_state_machine :
  (forall props c,
      talentUUID props <> "" ->
      let refreshing := step c (Refresh props false) in
      isRefreshing (state refreshing) = true
      /\ successMessage (state refreshing) = None
      /\ error (state refreshing) = None
      /\ inFlight refreshing = (inFlight c ++ [props])%list)
  /\ (forall c i props result,
         nth_error (inFlight c) i = Some props ->
         success result = true ->
         let done := step c (Settle i (Normal result)) in
         successMessage (state done) = Some "Calculation enqueued"
         /\ error (state done) = error (state c)
         /\ isRefreshing (state done) = isRefreshing (state c)
         /\ inFlight done = removeAt i (inFlight c))
  /\ (forall c i props outcome message,
         nth_error (inFlight c) i = Some props ->
         failureMessage outcome = Some message ->
         let done := step c (Settle i outcome) in
         isRefreshing (state done) = false
         /\ error (state done) = Some message
         /\ inFlight done = removeAt i (inFlight c))
  /\ (forall c e message,
         error (state c) = Some message ->
         error (state (step c e)) = None ->
         e = ClearError
         \/ exists props, e = Refresh props false /\ talentUUID props <> "")
  /\ (forall c, error (state (step c ClearError)) = None).
Proof.
  split.
  { intros props c Hid refreshing; subst refreshing; cbn [step].
    unfold refreshScore; apply String.eqb_neq in Hid; rewrite Hid; cbn.
    repeat split; reflexivity. }
  split.
  { intros c i props result Hnth Hok done; subst done; cbn [step].
    unfold settle; rewrite Hnth, Hok; cbn; repeat split; reflexivity. }
  split.
  { intros c i props outcome message Hnth Hfail done; subst done.
    cbn [step]; unfold settle; rewrite Hnth.
    destruct outcome as [result|reason]; cbn in Hfail.
    - destruct (success result); [discriminate|].
      injection Hfail as <-; repeat split; reflexivity.
    - injection Hfail as <-; repeat split; reflexivity. }
  split; [exact error_survives|].
  intros c; reflexivity.
Qed.

Lemma refresh_state_machine_witness :
  let refreshing := step initial (Refresh sampleProps false) in
  isRefreshing (state refreshing) = true
  /\ inFlight refreshing = [sampleProps]
  /\ successMessage (state (step refreshing (Settle 0 succeeded)))
     = Some "Calculation enqueued"
  /\ error (state (step refreshing (Settle 0 refused)))
     = Some "Cooldown active"
  /\ isRefreshing (state (step refreshing (Settle 0 refused))) = false
  /\ inFlight (step refreshing (Settle 0 refused)) = [].
Proof.
  destruct refresh_state_machine as (Hstart & Hok & Hfail & _).
  destruct (Hstart sampleProps initial) as (Hflag & _ & _ & Hin);
    [discriminate|].
  split; [exact Hflag|]. split; [exact Hin|].
  split.
  - apply (Hok (step initial (Refresh sampleProps false)) 0%nat sampleProps
               {| success := true; result_error := None |}); reflexivity.
  - destruct (Hfail (step initial (Refresh sampleProps false)) 0%nat
                    sampleProps refused "Cooldown active")
      as (H1 & H2 & H3); [reflexivity|reflexivity|].
    repeat split; assumption.
Defined.

(** C2, as stated, fails twice: after a success the controller is still
    refreshing, so it has not returned to idle, and a call through the
    render that follows is ignored; and a new refresh removes the error
    message of a failed one without the manual clear action. *)
Lemma refresh_claim_counterexample :
  isRefreshing
    (state (run [Refresh sampleProps false; Settle 0 succeeded] initial))
  = true
  /\ run [Refresh sampleProps false; Settle 0 succeeded;
          Refresh sampleProps true] initial
     = run [Refresh sampleProps false; Settle 0 succeeded] initial
  /\ error (state (run [Refresh sampleProps false; Settle 0 refused]
                       initial))
     = Some "Cooldown active"
  /\ error (state (run [Refresh sampleProps false; Settle 0 refused;
                        Refresh sampleProps false] initial)) = None.
Proof. repeat split; reflexivity. Qed.

End RefreshController.

(* ================================================================== *)
(** * Share-image route ([GET] of [route.tsx]) *)
(* ================================================================== *)

Module ShareImage.

Import JSNumber JSString JSError.
Local Open Scope string_scope.

(** The fields of the profile the route reads. *)
Record Profile := {
  display_name : option string;
  name : option string;
  image_url : option string
}.

(** The response of [talentApiClient.getProfile]: [response.ok],
    [response.status] and how [response.json()] ends. *)
Record ApiResponse := {
  ok : bool;
  status : nat;
  json : Completion Profile
}.

(** What the cached callback of lines 30-42 returns. *)
Record ProfileResponse := {
  profile_ok : bool;
  data : Profile
}.

Record SocialAccount := {
  source : string;
  followerCount : option float
}.

(** [creatorScoreData]: the one field the route reads. *)
Record CreatorScoreData := {
  score : option float
}.

Definition Bytes := list N.

(** What the image renderer is given: the values the JSX tree shows and
    the four font buffers. *)
Record Layout := {
  backgroundImage : string;
  avatar : option string;
  cleanName : string;
  totalFollowers : float;
  creatorScore : float;
  totalEarnings : float;
  fonts : list Bytes
}.

(** The collaborators of the route: the upstream API, the services, the
    helpers of [@/lib/utils], the font files and the image renderer. *)
Record Env := {
  getProfile : string -> Completion ApiResponse;
  getSocialAccountsForTalentId : string -> Completion (list SocialAccount);
  getCredentialsForTalentId :
    string -> Completion (list Earnings.CredentialGroup);
  getCreatorScoreForTalentId : string -> Completion CreatorScoreData;
  calculateTotalFollowers : list SocialAccount -> float;
  getEthUsdcPrice : Completion float;
  isEarningsCredential : string -> bool;
  fetchFont : string -> Completion Bytes;
  renderImage : Layout -> Completion Bytes
}.

Inductive HttpResponse :=
| JsonError (status : nat) (error : string)
| Image (png : Bytes).

Definition statusOf (response : HttpResponse) : nat :=
  match response with
  | JsonError status _ => status
  | Image _ => 200
  end.

Definition imageBytes (response : HttpResponse) : option Bytes :=
  match response with
  | JsonError _ _ => None
  | Image png => Some png
  end.

(** The decimal text of a status in a template string. *)
Definition decimal (n : nat) : string :=
  DecimalString.NilZero.string_of_uint (Nat.to_uint n).

(** Lines 29-48: the callback given to [unstable_cache], which the cache
    runs or whose earlier result it returns; it throws when the response
    is not [ok]. *)
Definition cachedProfile (env : Env) (talentUUID : string)
  : Completion ProfileResponse :=
  andThen (getProfile env talentUUID) (fun response =>
    if negb (ok response) then
      Throws (ErrorObject ("Profile not found: " ++ decimal (status response)))
    else
      andThen (json response) (fun profileData =>
        Normal {| profile_ok := true; data := profileData |})).

(** [x || 0] on a number that may be missing. *)
Definition numberOrZero (x : option float) : float :=
  match x with
  | Some v => if PrimFloat.eqb v 0 || isNaN v then 0%float else v
  | None => 0%float
  end.

(** Lines 181-184: [talentUUID.charCodeAt(0) % 2], [None] for [NaN]. *)
Definition backgroundIndex (talentUUID : string) : option N :=
  match charCodeAt0 talentUUID with
  | Some c => Some (c mod 2)%N
  | None => None
  end.

Definition backgroundFor (talentUUID : string) : string :=
  match backgroundIndex talentUUID with
  | Some 0%N => "background.png"
  | _ => "background-2.png"
  end.

(** Lines 186-196: the four fonts, all of them or a throw. *)
Definition loadFonts (env : Env) : Completion (list Bytes) :=
  andThen (fetchFont env "Cy Regular.ttf") (fun cyRegular =>
  andThen (fetchFont env "Cy Bold.ttf") (fun cyBold =>
  andThen (fetchFont env "Cy SemiBold.ttf") (fun cySemiBold =>
  andThen (fetchFont env "Cy ExtraBold.ttf") (fun cyExtraBold =>
    Normal [cyRegular; cyBold; cySemiBold; cyExtraBold])))).

(** Lines 58-196: from the profile to what is rendered.  The emoji ranges
    of line 177 lie above code 255, so on these strings [cleanName] is
    [displayName]. *)
Definition composeLayout (env : Env) (talentUUID : string)
           (profileData : Profile) : Completion Layout :=
  let socialAccounts :=
    orCatch (getSocialAccountsForTalentId env talentUUID) [] in
  let credentials :=
    orCatch (getCredentialsForTalentId env talentUUID) [] in
  let creatorScoreData :=
    orCatch (getCreatorScoreForTalentId env talentUUID)
            {| score := Some 0%float |} in
  let totalFollowers := calculateTotalFollowers env socialAccounts in
  let creatorScore := numberOrZero (score creatorScoreData) in
  andThen (getEthUsdcPrice env) (fun ethPrice =>
    let totalEarnings :=
      Earnings.totalEarnings (isEarningsCredential env) ethPrice
                             credentials in
    let displayName :=
      orElse (display_name profileData)
             (orElse (name profileData) "Creator") in
    let avatar := image_url profileData in
    let cleanName := displayName in
    let backgroundImage := backgroundFor talentUUID in
    andThen (loadFonts env) (fun fonts =>
      Normal {| backgroundImage := backgroundImage;
                avatar := avatar;
                cleanName := cleanName;
                totalFollowers := totalFollowers;
                creatorScore := creatorScore;
                totalEarnings := totalEarnings;
                fonts := fonts |})).

(** The [try] block of [GET]. *)
Definition attempt (env : Env) (talentUUID : string)
  : Completion HttpResponse :=
  andThen (cachedProfile env talentUUID) (fun profileResponse =>
    if negb (profile_ok profileResponse) then
      Normal (JsonError 404 "Profile not found")
    else
      andThen (composeLayout env talentUUID (data profileResponse))
        (fun layout =>
           andThen (renderImage env layout) (fun png =>
             Normal (Image png)))).

(** [GET]: the [try] block, and the [catch] of lines 383-394. *)
Definition GET (env : Env) (talentUUID : string) : HttpResponse :=
  match attempt env talentUUID with
  | Normal response => response
  | Throws _ => JsonError 500 "Failed to generate image"
  end.

(** ** Facts on the route *)

Lemma cachedProfile_ok (env : Env) (talentUUID : string)
      (profileResponse : ProfileResponse) :
  cachedProfile env talentUUID = Normal profileResponse ->
  profile_ok profileResponse = true.
Proof.
  unfold cachedProfile.
  destruct (getProfile env talentUUID) as [response|reason]; cbn;
    [|discriminate].
  destruct (ok response); cbn; [|discriminate].
  destruct (json response) as [profileData|reason]; cbn; [|discriminate].
  intros H; injection H as <-; reflexivity.
Qed.

Lemma cachedProfile_not_ok (env : Env) (talentUUID : string)
      (response : ApiResponse) :
  getProfile env talentUUID = Normal response -> ok response = false ->
  cachedProfile env talentUUID
  = Throws (ErrorObject ("Profile not found: " ++ decimal (status response))).
Proof.
  intros Hp Hok; unfold cachedProfile; rewrite Hp; cbn; rewrite Hok.
  reflexivity.
Qed.

(** A subject whose profile request is answered with a response that is
    not [ok] gets the 500 of the [catch], whatever the status. *)
Lemma GET_profile_not_ok (env : Env) (talentUUID : string)
      (response : ApiResponse) :
  getProfile env talentUUID = Normal response -> ok response = false ->
  GET env talentUUID = JsonError 500 "Failed to generate image".
Proof.
  intros Hp Hok; unfold GET, attempt.
  rewrite (cachedProfile_not_ok env talentUUID response Hp Hok).
  reflexivity.
Qed.

(** Whenever [GET] returns no image it returns the 500 of the [catch]:
    the 404 of line 52 is never returned. *)
Lemma GET_without_image (env : Env) (talentUUID : string) :
  imageBytes (GET env talentUUID) = None ->
  GET env talentUUID = JsonError 500 "Failed to generate image".
Proof.
  unfold GET, attempt.
  destruct (cachedProfile env talentUUID) as [profileResponse|reason] eqn:Hc;
    cbn; [|reflexivity].
  rewrite (cachedProfile_ok env talentUUID profileResponse Hc); cbn.
  destruct (composeLayout env talentUUID (data profileResponse))
    as [layout|reason]; cbn; [|reflexivity].
  destruct (renderImage env layout) as [png|reason]; cbn;
    [discriminate|reflexivity].
Qed.

Lemma GET_never_404 (env : Env) (talentUUID : string) :
  statusOf (GET env talentUUID) <> 404%nat.
Proof.
  destruct (imageBytes (GET env talentUUID)) as [png|] eqn:Hi.
  - destruct (GET env talentUUID); cbn in *; [discriminate|lia].
  - rewrite (GET_without_image env talentUUID Hi); cbn; lia.
Qed.

Lemma composeLayout_background (env : Env) (talentUUID : string)
      (profileData : Profile) (layout : Layout) :
  composeLayout env talentUUID profileData = Normal layout ->
  backgroundImage layout = backgroundFor talentUUID.
Proof.
  unfold composeLayout.
  destruct (getEthUsdcPrice env) as [ethPrice|reason]; cbn; [|discriminate].
  destruct (loadFonts env) as [buffers|reason]; cbn; [|discriminate].
  intros H; injection H as <-; reflexivity.
Qed.

Lemma GET_image_layout (env : Env) (talentUUID : string) (png : Bytes) :
  GET env talentUUID = Image png ->
  exists profileResponse layout,
    cachedProfile env talentUUID = Normal profileResponse
    /\ composeLayout env talentUUID (data profileResponse) = Normal layout
    /\ renderImage env layout = Normal png.
Proof.
  unfold GET, attempt.
  destruct (cachedProfile env talentUUID) as [profileResponse|reason];
    cbn; [|discriminate].
  destruct (profile_ok profileResponse); cbn; [|discriminate].
  destruct (composeLayout env talentUUID (data profileResponse))
    as [layout|reason] eqn:Hl; cbn; [|discriminate].
  destruct (renderImage env layout) as [bytes|reason] eqn:Hr; cbn;
    [|discriminate].
  intros H; injection H as <-.
  exists profileResponse, layout; repeat split; [exact Hl|exact Hr].
Qed.

(** ** Sample data *)

Definition sampleProfile : Profile :=
  {| display_name := Some "Ada";
     name := Some "ada.eth";
     image_url := None |}.

(** An environment in which everything answers. *)
Definition sampleEnv : Env :=
  {| getProfile := fun _ =>
       Normal {| ok := true; status := 200; json := Normal sampleProfile |};
     getSocialAccountsForTalentId := fun _ => Normal [];
     getCredentialsForTalentId := fun _ => Normal Earnings.distinctGroups;
     getCreatorScoreForTalentId := fun _ =>
       Normal {| score := Some 45%float |};
     calculateTotalFollowers := fun _ => 0%float;
     getEthUsdcPrice := Normal 3000%float;
     isEarningsCredential := Earnings.sampleIsEarnings;
     fetchFont := fun _ => Normal [0%N; 1%N];
     renderImage := fun _ => Normal [137%N; 80%N; 78%N; 71%N] |}.

(** The same, but the services fail and the rate differs. *)
Definition degradedEnv : Env :=
  {| getProfile := getProfile sampleEnv;
     getSocialAccountsForTalentId := fun _ => Throws OtherValue;
     getCredentialsForTalentId := fun _ => Throws OtherValue;
     getCreatorScoreForTalentId := fun _ => Throws OtherValue;
     calculateTotalFollowers := fun _ => 12%float;
     getEthUsdcPrice := Normal 2500%float;
     isEarningsCredential := fun _ => true;
     fetchFont := fetchFont sampleEnv;
     renderImage := renderImage sampleEnv |}.

(** The same as [sampleEnv], but the upstream API does not know the
    subject: it answers the profile request with a 404. *)
Definition unknownSubjectEnv : Env :=
  {| getProfile := fun _ =>
       Normal {| ok := false; status := 404; json := Throws OtherValue |};
     getSocialAccountsForTalentId := getSocialAccountsForTalentId sampleEnv;
     getCredentialsForTalentId := getCredentialsForTalentId sampleEnv;
     getCreatorScoreForTalentId := getCreatorScoreForTalentId sampleEnv;
     calculateTotalFollowers := calculateTotalFollowers sampleEnv;
     getEthUsdcPrice := getEthUsdcPrice sampleEnv;
     isEarningsCredential := isEarningsCredential sampleEnv;
     fetchFont := fetchFont sampleEnv;
     renderImage := renderImage sampleEnv |}.

(** ** The route, as the specification states it *)

(** C1.  What the code does for a subject the upstream API does not
    know, that is, whose profile request is answered with a response that
    is not [ok]: the cached callback throws, the [catch] answers, and the
    response is the JSON error with status 500, not 404; it has no image
    bytes.  No request at all is answered with 404: every response
    without image bytes is that JSON error with status 500. *)
Theorem unknown_subject_answers_500 (env : Env) (talentUUID : string)
        (response : ApiResponse) :
  getProfile env talentUUID = Normal response ->
  ok response = false ->
  GET env talentUUID = JsonError 500 "Failed to generate image"
  /\ imageBytes (GET env talentUUID) = None
  /\ statusOf (GET env talentUUID) <> 404%nat
  /\ (forall env' talentUUID',
         imageBytes (GET env' talentUUID') = None ->
         GET env' talentUUID' = JsonError 500 "Failed to generate image").
Proof.
  intros Hp Hok.
  rewrite (GET_profile_not_ok env talentUUID response Hp Hok).
  repeat split; [cbn; lia|exact GET_without_image].
Qed.

Lemma unknown_subject_witness :
  cachedProfile unknownSubjectEnv "no-such-subject"
  = Throws (ErrorObject "Profile not found: 404")
  /\ GET unknownSubjectEnv "no-such-subject"
     = JsonError 500 "Failed to generate image"
  /\ imageBytes (GET unknownSubjectEnv "no-such-subject") = None.
Proof.
  split; [reflexivity|].
  destruct (unknown_subject_answers_500 unknownSubjectEnv "no-such-subject"
              {| ok := false; status := 404; json := Throws OtherValue |})
    as (H500 & Hnone & _); [reflexivity|reflexivity|].
  split; assumption.
Defined.

(** C9.  The background the route renders is one of the two fixed files,
    chosen by the code of the identifier's first character modulo 2 (the
    second file when the identifier is empty): every layout the route
    composes for an identifier, and so the layout behind every image it
    answers with, has that file as its background.  It is a function of
    the identifier alone: two requests for one identifier, whatever the
    collaborators answer, render the same background. *)
Theorem background_depends_on_identifier_only (talentUUID : string) :
  (backgroundFor talentUUID = "background.png"
   \/ backgroundFor talentUUID = "background-2.png")
  /\ (forall c rest,
         talentUUID = String c rest ->
         backgroundFor talentUUID
         = if (code c mod 2 =? 0)%N then "background.png"
           else "background-2.png")
  /\ (talentUUID = "" -> backgroundFor talentUUID = "background-2.png")
  /\ (forall env profile layout,
         composeLayout env talentUUID profile = Normal layout ->
         backgroundImage layout = backgroundFor talentUUID)
  /\ (forall env png,
         GET env talentUUID = Image png ->
         exists layout,
           renderImage env layout = Normal png
           /\ backgroundImage layout = backgroundFor talentUUID)
  /\ (forall env1 env2 profile1 profile2 layout1 layout2,
         composeLayout env1 talentUUID profile1 = Normal layout1 ->
         composeLayout env2 talentUUID profile2 = Normal layout2 ->
         backgroundImage layout1 = backgroundImage layout2).
Proof.
  split.
  { unfold backgroundFor.
    destruct (backgroundIndex talentUUID) as [[|p]|]; auto. }
  split.
  { intros c rest ->; unfold backgroundFor, backgroundIndex; cbn.
    destruct (code c mod 2)%N; reflexivity. }
  split; [intros ->; reflexivity|].
  split; [exact (fun env => composeLayout_background env talentUUID)|].
  split.
  { intros env png Himage.
    destruct (GET_image_layout env talentUUID png Himage)
      as (profileResponse & layout & _ & Hlayout & Hrender).
    exists layout; split; [exact Hrender|].
    exact (composeLayout_background _ _ _ _ Hlayout). }
  intros env1 env2 profile1 profile2 layout1 layout2 H1 H2.
  rewrite (composeLayout_background _ _ _ _ H1).
  rewrite (composeLayout_background _ _ _ _ H2); reflexivity.
Qed.

Lemma background_witness :
  backgroundFor "7f3c2a10-talent" = "background-2.png"
  /\ (forall layout,
         composeLayout sampleEnv "7f3c2a10-talent" sampleProfile
         = Normal layout ->
         backgroundImage layout = "background-2.png")
  /\ (forall png,
         GET sampleEnv "7f3c2a10-talent" = Image png ->
         exists layout,
           renderImage sampleEnv layout = Normal png
           /\ backgroundImage layout = "background-2.png")
  /\ (forall layout1 layout2,
         composeLayout sampleEnv "7f3c2a10-talent" sampleProfile
         = Normal layout1 ->
         composeLayout degradedEnv "7f3c2a10-talent" sampleProfile
         = Normal layout2 ->
         backgroundImage layout1 = backgroundImage layout2)
  /\ exists layout1 layout2,
       composeLayout sampleEnv "7f3c2a10-talent" sampleProfile
       = Normal layout1
       /\ composeLayout degradedEnv "7f3c2a10-talent" sampleProfile
          = Normal layout2
       /\ totalEarnings layout1 <> totalEarnings layout2
       /\ backgroundImage layout1 = backgroundImage layout2.
Proof.
  destruct (background_depends_on_identifier_only "7f3c2a10-talent")
    as (_ & Hfirst & _ & Hlayout & Hroute & Hsame).
  assert (backgroundFor "7f3c2a10-talent" = "background-2.png") as Hsecond.
  { apply (Hfirst "7"%char "f3c2a10-talent"); reflexivity. }
  split; [exact Hsecond|].
  split.
  { intros layout H; rewrite <- Hsecond; exact (Hlayout _ _ _ H). }
  split.
  { intros png H; destruct (Hroute _ _ H) as (layout & Hr & Hb).
    exists layout; split; [exact Hr|rewrite <- Hsecond; exact Hb]. }
  split; [intros layout1 layout2; apply Hsame|].
  destruct (composeLayout sampleEnv "7f3c2a10-talent" sampleProfile)
    as [layout1|] eqn:H1; [|discriminate].
  destruct (composeLayout degradedEnv "7f3c2a10-talent" sampleProfile)
    as [layout2|] eqn:H2; [|discriminate].
  exists layout1, layout2; repeat split.
  - injection H1 as <-; injection H2 as <-; cbn [totalEarnings].
    intros Heq; apply (f_equal (fun x => PrimFloat.eqb x 0)) in Heq.
    vm_compute in Heq; discriminate.
  - exact (Hsame _ _ _ _ _ _ H1 H2).
Defined.

End ShareImage.

(* ================================================================== *)
(** * Score services
      ([getBuilderScore], [getCreatorScore] and
      [getCreatorScoreForTalentId] of [useBadges.ts], and more on
      [getScoreForAddress] and [getHighestScore]) *)
(* ================================================================== *)

Module ScoreServices.

Import JSNumber JSString JSError ScoreClient.
Local Open Scope string_scope.
Local Open Scope float_scope.

(** What [getCreatorScoreForTalentId] runs in: in a browser
    ([typeof window !== "undefined"]) it asks the application's own route,
    on the server it imports the API client and asks the upstream API;
    either way the request ends as a [FetchOutcome] (a failing import is a
    rejection too). *)
Record TalentIdEnv := {
  isClient : bool;
  clientFetch : string -> string -> FetchOutcome;
  serverFetch : string -> string -> FetchOutcome
}.

(** A record with its [walletAddress] set to [null]. *)
Definition withoutWallet (r : ScoreRecord) : ScoreRecord :=
  {| score := score r;
     level := level r;
     levelName := levelName r;
     lastCalculatedAt := lastCalculatedAt r;
     walletAddress := None;
     calculating := calculating r;
     calculatingEnqueuedAt := calculatingEnqueuedAt r;
     error := error r |}.

Section Services.

Variable firstRange : LevelRange.
Variable otherRanges : list LevelRange.

(** [SCORER_SLUGS.BUILDER] and [SCORER_SLUGS.CREATOR] of [./types]. *)
Variable BUILDER : string.
Variable CREATOR : string.

(** Lines 168-173: [scorerSlug || SCORER_SLUGS.BUILDER]. *)
Definition getBuilderScore (net : nat -> string -> string -> FetchOutcome)
           (addresses : list string) (scorerSlug : option string)
  : ScoreRecord :=
  getHighestScore firstRange otherRanges net addresses
                  (orElse scorerSlug BUILDER).

(** Lines 178-183: [scorerSlug || SCORER_SLUGS.CREATOR]. *)
Definition getCreatorScore (net : nat -> string -> string -> FetchOutcome)
           (addresses : list string) (scorerSlug : option string)
  : ScoreRecord :=
  getHighestScore firstRange otherRanges net addresses
                  (orElse scorerSlug CREATOR).

(** Lines 222-241: the record of a response without an error. *)
Definition talentRecordOf (data : ScoreResponse) : ScoreRecord :=
  let points := orDefault (scoreField data points) 0 in
  let lastCalculatedAt := scoreField data last_calculated_at in
  let calculating := orDefault (scoreField data calculating_score) false in
  let calculatingEnqueuedAt :=
    scoreField data calculating_score_enqueued_at in
  let info := levelInfo firstRange otherRanges points in
  {| score := points;
     level := info + 1;
     levelName := name (nth info (LEVEL_RANGES firstRange otherRanges)
                            firstRange);
     lastCalculatedAt := lastCalculatedAt;
     walletAddress := None;
     calculating := Some calculating;
     calculatingEnqueuedAt := calculatingEnqueuedAt;
     error := None |}.

(** Lines 188-252; [talentId] is [String(talentId)]. *)
Definition getCreatorScoreForTalentId (env : TalentIdEnv)
           (talentId : string) : ScoreRecord :=
  let outcome :=
    if isClient env then clientFetch env talentId CREATOR
    else serverFetch env talentId CREATOR in
  match outcome with
  | Rejected reason => errorRecord (messageOf reason "Failed to fetch score")
  | Resolved data =>
      match data_error data with
      | Some message =>
          if truthy (Some message) then errorRecord message
          else talentRecordOf data
      | None => talentRecordOf data
      end
  end.

(** ** Facts *)

Lemma levelInfo_bound (p : float) :
  (levelInfo firstRange otherRanges p
   < List.length (LEVEL_RANGES firstRange otherRanges))%nat.
Proof.
  unfold levelInfo.
  destruct (findFrom 0 (inLevel p) (LEVEL_RANGES firstRange otherRanges))
    as [k|] eqn:Hfind; [|cbn; lia].
  apply findFrom_Some in Hfind as (d & range & -> & Hnth & _).
  cbn [Nat.add]; apply nth_error_Some; congruence.
Qed.

(** X1.  Every record of the single-address fetch has a level between 1 and
    the size of the table; a record without an error carries the name of
    the range at that level, a record with an error the fixed level 1 and
    name ["Level 1"]. *)
Theorem level_within_table
        (fetch : string -> string -> FetchOutcome) (address slug : string) :
  let r := getScoreForAddress firstRange otherRanges fetch address slug in
  (1 <= level r <= List.length (LEVEL_RANGES firstRange otherRanges))%nat
  /\ match error r with
     | None =>
         nth_error (LEVEL_RANGES firstRange otherRanges) (level r - 1)
         = Some (nth (level r - 1) (LEVEL_RANGES firstRange otherRanges)
                     firstRange)
         /\ levelName r
            = name (nth (level r - 1)
                        (LEVEL_RANGES firstRange otherRanges) firstRange)
     | Some _ => level r = 1%nat /\ levelName r = "Level 1"
     end.
Proof.
  intros r.
  destruct (getScoreForAddress_cases firstRange otherRanges fetch address slug)
    as [[message Hr]|(data & _ & _ & Hr)]; fold r in Hr; rewrite Hr.
  - cbn; repeat split; lia.
  - unfold scoreRecordOf; cbn [level error levelName].
    pose proof (levelInfo_bound (orDefault (scoreField data points) 0)) as Hb.
    set (info := levelInfo firstRange otherRanges _) in *.
    replace (info + 1 - 1)%nat with info by lia.
    repeat split; try lia.
    apply nth_error_nth'; exact Hb.
Qed.

(** X2.  The lookup returns one of three things: the fixed record for an empty
    list; the fixed record ["No valid scores found"] when every fetched
    record has an error, whatever the errors were; or one of the fetched
    records, one without an error.  The message of a failed fetch never
    reaches the caller. *)
Theorem highest_score_outcomes
        (net : nat -> string -> string -> FetchOutcome)
        (addresses : list string) (slug : string) :
  let scores := scoresOf firstRange otherRanges net addresses slug in
  let r := getHighestScore firstRange otherRanges net addresses slug in
  (addresses = [] /\ r = errorRecord "No wallet addresses provided")
  \/ (addresses <> []
      /\ Forall (fun s => hasError s = true) scores
      /\ r = errorRecord "No valid scores found")
  \/ (In r scores /\ hasError r = false).
Proof.
  intros scores r; subst r; unfold getHighestScore.
  destruct addresses as [|a rest]; [left; split; reflexivity|].
  fold scores.
  destruct (filter (fun s => negb (hasError s)) scores)
    as [|first others] eqn:Hv.
  - right; left; split; [discriminate|]; split; [|reflexivity].
    apply Forall_forall; intros s Hs.
    destruct (hasError s) eqn:He; [reflexivity|exfalso].
    assert (In s []) as []; rewrite <- Hv.
    apply filter_In; split; [exact Hs|rewrite He; reflexivity].
  - right; right.
    pose proof (fold_higher_In others first) as Hmem.
    rewrite <- Hv in Hmem; apply filter_In in Hmem as [Hin Hok].
    split; [exact Hin|apply negb_true_iff, Hok].
Qed.

(** X3.  With a scorer slug that is not empty the two named lookups are the
    same function; without one, or with the empty string, each uses the
    slug of its name. *)
Theorem explicit_slug_overrides_scorer
        (net : nat -> string -> string -> FetchOutcome)
        (addresses : list string) (slug : string) :
  slug <> "" ->
  getBuilderScore net addresses (Some slug)
  = getCreatorScore net addresses (Some slug)
  /\ getBuilderScore net addresses (Some slug)
     = getHighestScore firstRange otherRanges net addresses slug
  /\ getBuilderScore net addresses (Some "")
     = getBuilderScore net addresses None
  /\ getCreatorScore net addresses (Some "")
     = getCreatorScore net addresses None
  /\ getBuilderScore net addresses None
     = getHighestScore firstRange otherRanges net addresses BUILDER
  /\ getCreatorScore net addresses None
     = getHighestScore firstRange otherRanges net addresses CREATOR.
Proof.
  intros Hne; unfold getBuilderScore, getCreatorScore; cbn [orElse].
  apply String.eqb_neq in Hne; rewrite Hne; cbn.
  repeat split; reflexivity.
Qed.

(** X4.  The fetch by talent id answers as the fetch by address does on the
    same outcome, but for the wallet address, which it never sets; in a
    browser it asks the application's route, on the server the upstream
    API, always for the creator scorer. *)
Theorem talent_id_fetch_is_address_fetch_without_wallet
        (env : TalentIdEnv) (talentId address : string) :
  let outcome :=
    if isClient env then clientFetch env talentId CREATOR
    else serverFetch env talentId CREATOR in
  let r := getCreatorScoreForTalentId env talentId in
  r = withoutWallet
        (getScoreForAddress firstRange otherRanges
           (fun _ _ => outcome) address CREATOR)
  /\ walletAddress r = None
  /\ match error r with
     | Some _ => score r = 0 /\ level r = 1%nat
     | None => exists data, outcome = Resolved data
                            /\ truthy (data_error data) = false
     end.
Proof.
  intros outcome r; subst r; unfold getCreatorScoreForTalentId.
  fold outcome; unfold getScoreForAddress.
  destruct outcome as [reason|data] eqn:Ho.
  - repeat split; reflexivity.
  - destruct (data_error data) as [message|] eqn:He.
    + destruct (truthy (Some message)) eqn:Ht.
      * repeat split; reflexivity.
      * repeat split; try reflexivity.
        exists data; rewrite He; split; [reflexivity|exact Ht].
    + repeat split; try reflexivity.
      exists data; rewrite He; split; reflexivity.
Qed.

(** X5.  A response that has neither an error nor points (no [score] object,
    or one without [points]) is not a failure: it gives a record without
    an error, with score 0, the level of 0 points and the address asked
    for, and [calculating] false unless the response says otherwise. *)
Theorem missing_points_count_as_zero
        (fetch : string -> string -> FetchOutcome) (address slug : string)
        (data : ScoreResponse) :
  fetch address slug = Resolved data ->
  truthy (data_error data) = false ->
  scoreField data points = None ->
  let r := getScoreForAddress firstRange otherRanges fetch address slug in
  error r = None
  /\ hasError r = false
  /\ score r = 0
  /\ level r = (levelInfo firstRange otherRanges 0 + 1)%nat
  /\ walletAddress r = Some address
  /\ (data_score data = None ->
      lastCalculatedAt r = None /\ calculating r = Some false
      /\ calculatingEnqueuedAt r = None).
Proof.
  intros Hf Herr Hpoints r.
  assert (r = scoreRecordOf firstRange otherRanges data address) as ->.
  { subst r; unfold getScoreForAddress; rewrite Hf.
    destruct (data_error data) as [message|]; [rewrite Herr|]; reflexivity. }
  unfold scoreRecordOf; rewrite Hpoints; cbn.
  repeat split; try reflexivity.
  all: match goal with
       | Hnone : data_score _ = None |- _ =>
           unfold scoreField; rewrite Hnone; reflexivity
       end.
Qed.

End Services.

Lemma explicit_slug_witness :
  getBuilderScore sampleFirst sampleOthers "builder_score" sampleNet
                  sampleAddresses (Some "creator_score")
  = getCreatorScore sampleFirst sampleOthers "creator_score" sampleNet
                    sampleAddresses (Some "creator_score").
Proof.
  apply (explicit_slug_overrides_scorer sampleFirst sampleOthers
           "builder_score" "creator_score" sampleNet sampleAddresses
           "creator_score").
  discriminate.
Defined.

(** A response with neither an error nor a score object. *)
Definition emptyFetch (address slug : string) : FetchOutcome :=
  Resolved {| data_error := None; data_score := None |}.

Lemma missing_points_witness :
  let r := getScoreForAddress sampleFirst sampleOthers emptyFetch
                              "0xaa01" "creator_score" in
  error r = None
  /\ hasError r = false
  /\ score r = 0
  /\ level r = (levelInfo sampleFirst sampleOthers 0 + 1)%nat
  /\ walletAddress r = Some "0xaa01"
  /\ (data_score {| data_error := None; data_score := None |} = None ->
      lastCalculatedAt r = None /\ calculating r = Some false
      /\ calculatingEnqueuedAt r = None).
Proof.
  apply (missing_points_count_as_zero sampleFirst sampleOthers emptyFetch
           "0xaa01" "creator_score"
           {| data_error := None; data_score := None |});
    reflexivity.
Defined.

End ScoreServices.

(* ================================================================== *)
(** * More on the credential aggregator *)
(* ================================================================== *)

Module EarningsFacts.

Import JSNumber JSString Earnings.
Local Open Scope string_scope.
Local Open Scope float_scope.

(** ** The parser *)

Lemma keepOnly_app (keep : ascii -> bool) (a b : string) :
  keepOnly keep (a ++ b) = keepOnly keep a ++ keepOnly keep b.
Proof.
  induction a as [|c r IH]; cbn; [reflexivity|].
  destruct (keep c); cbn; rewrite IH; reflexivity.
Qed.

Lemma keepOnly_none (keep : ascii -> bool) (s : string) :
  (forall c, In c (list_ascii_of_string s) -> keep c = false) ->
  keepOnly keep s = "".
Proof.
  induction s as [|c r IH]; cbn; intros H; [reflexivity|].
  rewrite (H c) by (left; reflexivity).
  apply IH; intros d Hd; apply H; right; exact Hd.
Qed.

Lemma includes_keepOnly (keep : ascii -> bool) (c : ascii) (s : string) :
  keep c = true -> includes c (keepOnly keep s) = includes c s.
Proof.
  intros Hc; induction s as [|d r IH]; cbn; [reflexivity|].
  destruct (keep d) eqn:Hd; cbn; rewrite IH; [reflexivity|].
  destruct (Ascii.eqb_spec d c) as [->|Hne]; [congruence|reflexivity].
Qed.

Lemma includes_app (c : ascii) (a b : string) :
  includes c (a ++ b) = includes c a || includes c b.
Proof.
  induction a as [|d r IH]; cbn; [reflexivity|].
  rewrite IH, orb_assoc; reflexivity.
Qed.

Lemma removeFirst_middle (c : ascii) (a b : string) :
  includes c a = false ->
  removeFirst c (a ++ String c b) = a ++ b.
Proof.
  induction a as [|d r IH]; cbn.
  - rewrite Ascii.eqb_refl; reflexivity.
  - intros H; apply orb_false_iff in H as [Hd Hr].
    rewrite Hd, (IH Hr); reflexivity.
Qed.

(** X8.  The first [K] of the text multiplies by 1,000 wherever it stands, at
    the end, before the digits or inside a word: it is deleted and what
    is left is read as the number.  An [M] does the same with 1,000,000,
    but only in a text without any [K]. *)
Theorem multiplier_letter_anywhere (before after : string) :
  (includes "K" before = false ->
   parseValue (before ++ String "K" after)
   = parseFloat (stripNonNumeric (before ++ after)) * 1000)
  /\ (includes "K" before = false -> includes "K" after = false ->
      includes "M" before = false ->
      parseValue (before ++ String "M" after)
      = parseFloat (stripNonNumeric (before ++ after)) * 1000000).
Proof.
  unfold parseValue, stripNonNumeric; split.
  - intros HK.
    rewrite (includes_keepOnly numericChar "K") by reflexivity.
    rewrite includes_app; cbn [includes]; rewrite Ascii.eqb_refl.
    rewrite orb_true_r, !keepOnly_app; cbn [keepOnly].
    change (numericChar "K") with true; cbn iota.
    rewrite removeFirst_middle; [reflexivity|].
    rewrite (includes_keepOnly numericChar "K") by reflexivity; exact HK.
  - intros HKb HKa HM.
    rewrite (includes_keepOnly numericChar "K") by reflexivity.
    rewrite (includes_keepOnly numericChar "M") by reflexivity.
    rewrite !includes_app; cbn [includes].
    rewrite HKb, HKa, HM; cbn.
    rewrite !keepOnly_app; cbn [keepOnly].
    change (numericChar "M") with true; cbn iota.
    rewrite removeFirst_middle; [reflexivity|].
    rewrite (includes_keepOnly numericChar "M") by reflexivity; exact HM.
Qed.

Lemma multiplier_letter_witness :
  parseValue "5 OK" = parseFloat "5" * 1000
  /\ parseValue "K5" = parseFloat "5" * 1000
  /\ parseValue "2.5 Mio" = parseFloat "2.5" * 1000000.
Proof.
  split; [|split].
  - apply (proj1 (multiplier_letter_anywhere "5 O" "")); reflexivity.
  - apply (proj1 (multiplier_letter_anywhere "" "5")); reflexivity.
  - apply (proj2 (multiplier_letter_anywhere "2.5 " "io")); reflexivity.
Defined.

(** X9.  Characters outside the class (currency signs, blanks, thousands
    separators, letters other than [K] and [M]) never change the value,
    wherever they stand. *)
Theorem other_characters_do_not_matter (a junk b : string) :
  (forall c, In c (list_ascii_of_string junk) -> numericChar c = false) ->
  parseValue (a ++ junk ++ b) = parseValue (a ++ b).
Proof.
  intros Hjunk; unfold parseValue, stripNonNumeric.
  rewrite !keepOnly_app, (keepOnly_none numericChar junk Hjunk).
  reflexivity.
Qed.

Lemma other_characters_witness :
  parseValue "$1,234.56" = parseValue "$1234.56".
Proof.
  apply (other_characters_do_not_matter "$1" "," "234.56").
  intros c [<-|[]]; reflexivity.
Defined.

(** ** The aggregation *)

(** A group with its points that are not earnings-tagged removed. *)
Definition onlyEarnings (isEarningsCredential : string -> bool)
           (g : CredentialGroup) : CredentialGroup :=
  {| issuer := issuer g;
     points := filter (earningsPoint isEarningsCredential) (points g) |}.

Section AggregationFacts.

Variable isEarningsCredential : string -> bool.

(** The group that decides the entry of [name]: the last group of that
    issuer, in the order of the list, that writes an entry. *)
Definition lastIncluded (ethPrice : float)
           (credentials : list CredentialGroup) (name : string)
  : option CredentialGroup :=
  find (fun g => String.eqb (issuer g) name
                 && included isEarningsCredential ethPrice g)
       (rev credentials).

Lemma map_set_entry (k : string) (v : float) (m : IssuerTotals)
      (k' : string) (v' : float) :
  NoDup (keys m) ->
  (In (k', v') (map_set k v m)
   <-> (k' = k /\ v' = v) \/ (k' <> k /\ In (k', v') m)).
Proof.
  induction m as [|[k1 v1] r IH]; cbn; intros Hnd.
  - split; [intros [H|[]]; left; split; congruence|].
    intros [[-> ->]|[_ []]]; left; reflexivity.
  - inversion Hnd as [|? ? Hnotin Hnd']; subst.
    destruct (String.eqb_spec k1 k) as [->|Hne]; cbn.
    + split.
      * intros [H|H]; [left; split; congruence|right; split; [|right; exact H]].
        intros ->; apply Hnotin.
        change k with (fst (k, v')); apply in_map, H.
      * intros [[-> ->]|[Hk [H|H]]]; [left; reflexivity| |right; exact H].
        congruence.
    + rewrite (IH Hnd'); split.
      * intros [H|[H|[Hk H]]].
        -- right; split; [congruence|left; exact H].
        -- left; exact H.
        -- right; split; [exact Hk|right; exact H].
      * intros [H|[Hk [H|H]]]; [right; left; exact H|left; exact H|].
        right; right; split; assumption.
Qed.

Lemma pointStep_rate (r1 r2 acc : float) (p : CredentialPoint) :
  uom p <> Some "ETH" ->
  pointStep isEarningsCredential r1 acc p
  = pointStep isEarningsCredential r2 acc p.
Proof.
  intros Hu; unfold pointStep.
  destruct (negb (earningsPoint isEarningsCredential p)); [reflexivity|].
  destruct (negb (truthy (readable_value p)) || negb (truthy (uom p)));
    [reflexivity|].
  destruct (readable_value p) as [cleanValue|]; [|reflexivity].
  destruct (uom p) as [unit|]; [|reflexivity].
  destruct (isNaN (parseValue cleanValue)); [reflexivity|].
  destruct (String.eqb_spec unit "ETH") as [->|Hne]; [congruence|reflexivity].
Qed.

Lemma fold_pointStep_rate (r1 r2 : float) (l : list CredentialPoint) :
  (forall p, In p l -> uom p <> Some "ETH") ->
  forall acc, fold_left (pointStep isEarningsCredential r1) l acc
              = fold_left (pointStep isEarningsCredential r2) l acc.
Proof.
  induction l as [|p t IH]; cbn; intros H acc; [reflexivity|].
  rewrite (pointStep_rate r1 r2 acc p) by (apply H; left; reflexivity).
  apply IH; intros q Hq; apply H; right; exact Hq.
Qed.

Lemma fold_pointStep_filter (ethPrice : float) (l : list CredentialPoint) :
  forall acc,
    fold_left (pointStep isEarningsCredential ethPrice)
              (filter (earningsPoint isEarningsCredential) l) acc
    = fold_left (pointStep isEarningsCredential ethPrice) l acc.
Proof.
  induction l as [|p t IH]; cbn; intros acc; [reflexivity|].
  destruct (earningsPoint isEarningsCredential p) eqn:Hp; cbn.
  - apply IH.
  - rewrite (pointStep_not_earnings isEarningsCredential ethPrice acc p Hp).
    apply IH.
Qed.

Lemma existsb_filter_same {A : Type} (f : A -> bool) (l : list A) :
  existsb f (filter f l) = existsb f l.
Proof.
  induction l as [|x t IH]; cbn; [reflexivity|].
  destruct (f x) eqn:Hx; cbn; [rewrite Hx; reflexivity|exact IH].
Qed.

Lemma fold_groupStep_ext (f g : IssuerTotals -> CredentialGroup -> IssuerTotals)
      (l : list CredentialGroup) :
  (forall m x, In x l -> f m x = g m x) ->
  forall m, fold_left f l m = fold_left g l m.
Proof.
  induction l as [|x t IH]; cbn; intros H m; [reflexivity|].
  rewrite (H m x) by (left; reflexivity).
  apply IH; intros m' y Hy; apply H; right; exact Hy.
Qed.

(** X10.  For any list of groups, also with several groups of one issuer: the
    entry of an issuer is the total of the last of its groups that has an
    earnings-tagged point and a positive total; an issuer without such a
    group has no entry. *)
Theorem last_group_of_issuer_wins (ethPrice : float)
        (credentials : list CredentialGroup) (name : string) (v : float) :
  In (name, v) (issuerTotalsOf isEarningsCredential ethPrice credentials)
  <-> exists g, lastIncluded ethPrice credentials name = Some g
                /\ groupTotal isEarningsCredential ethPrice g = v.
Proof.
  unfold lastIncluded.
  induction credentials as [|g cs IH] using rev_ind.
  - cbn; split; [intros []|intros (g & H & _); discriminate].
  - unfold issuerTotalsOf in *; rewrite fold_left_app, rev_app_distr.
    cbn [fold_left rev app find].
    rewrite groupStep_included.
    destruct (included isEarningsCredential ethPrice g) eqn:Hinc.
    + rewrite map_set_entry
        by (apply (fold_groupStep_inv isEarningsCredential ethPrice cs []);
            constructor).
      destruct (String.eqb_spec (issuer g) name) as [Heq|Hne]; cbn [andb].
      * split.
        -- intros [[_ ->]|[Hk _]]; [exists g; split; reflexivity|congruence].
        -- intros (g' & Hg' & <-); injection Hg' as <-.
           left; split; [symmetry; exact Heq|reflexivity].
      * rewrite <- IH; split.
        -- intros [[Hk _]|[_ H]]; [congruence|exact H].
        -- intros H; right; split; [congruence|exact H].
    + rewrite andb_false_r; exact IH.
Qed.

(** X11.  Points that are not earnings-tagged never count: removing them from
    every group changes neither the map nor the total. *)
Theorem untagged_points_never_count (ethPrice : float)
        (credentials : list CredentialGroup) :
  issuerTotalsOf isEarningsCredential ethPrice
                 (map (onlyEarnings isEarningsCredential) credentials)
  = issuerTotalsOf isEarningsCredential ethPrice credentials
  /\ totalEarnings isEarningsCredential ethPrice
                   (map (onlyEarnings isEarningsCredential) credentials)
     = totalEarnings isEarningsCredential ethPrice credentials.
Proof.
  assert (issuerTotalsOf isEarningsCredential ethPrice
            (map (onlyEarnings isEarningsCredential) credentials)
          = issuerTotalsOf isEarningsCredential ethPrice credentials) as H.
  { unfold issuerTotalsOf; generalize (@nil (string * float)).
    induction credentials as [|g cs IH]; cbn [map fold_left]; intros m;
      [reflexivity|].
    rewrite IH; f_equal.
    unfold groupStep, hasEarningsCredentials, groupTotal, onlyEarnings.
    cbn [points issuer].
    rewrite existsb_filter_same, fold_pointStep_filter; reflexivity. }
  split; [exact H|unfold totalEarnings; rewrite H; reflexivity].
Qed.

(** X12.  The exchange rate matters to ETH-denominated points only: when no
    point has the unit ["ETH"], the map and the total are the same at any
    two rates. *)
Theorem rate_matters_for_eth_only (rate1 rate2 : float)
        (credentials : list CredentialGroup) :
  (forall g p, In g credentials -> In p (points g) ->
               uom p <> Some "ETH") ->
  issuerTotalsOf isEarningsCredential rate1 credentials
  = issuerTotalsOf isEarningsCredential rate2 credentials
  /\ totalEarnings isEarningsCredential rate1 credentials
     = totalEarnings isEarningsCredential rate2 credentials.
Proof.
  intros Hno.
  assert (issuerTotalsOf isEarningsCredential rate1 credentials
          = issuerTotalsOf isEarningsCredential rate2 credentials) as H.
  { unfold issuerTotalsOf; apply fold_groupStep_ext; intros m g Hg.
    unfold groupStep, groupTotal.
    rewrite (fold_pointStep_rate rate1 rate2 (points g) (fun p Hp => Hno g p Hg Hp)).
    reflexivity. }
  split; [exact H|unfold totalEarnings; rewrite H; reflexivity].
Qed.

End AggregationFacts.

Lemma rate_witness :
  totalEarnings sampleIsEarnings 3000 sameIssuerGroups
  = totalEarnings sampleIsEarnings 1 sameIssuerGroups.
Proof.
  apply (rate_matters_for_eth_only sampleIsEarnings 3000 1 sameIssuerGroups).
  intros g p [<-|[<-|[]]] [<-|[]]; discriminate.
Defined.

End EarningsFacts.

(* ================================================================== *)
(** * More on the refresh controller *)
(* ================================================================== *)

Module RefreshFacts.

Import JSString JSError RefreshController.
Local Open Scope string_scope.

(** What holds of the cells as long as every call goes through the
    current render: while a call is in flight both messages are clear,
    the callback has not been scheduled and the flag is set; while an
    error is shown the controller is idle, with no success message and
    nothing in flight. *)
Definition settled (c : Controller) : Prop :=
  (inFlight c <> [] ->
   successMessage (state c) = None /\ error (state c) = None
   /\ hasCalledSuccessRef (state c) = false
   /\ isRefreshing (state c) = true
   /\ exists props, inFlight c = [props])
  /\ (error (state c) <> None ->
      successMessage (state c) = None /\ isRefreshing (state c) = false
      /\ inFlight c = []).

Lemma settled_initial : settled initial.
Proof. split; cbn; intros H; congruence. Qed.

Lemma settled_step (c : Controller) (e : Event) :
  throughCurrentRender c e -> settled c -> settled (step c e).
Proof.
  intros Hcur [Hfly Herr]; destruct e as [props seen|i outcome| |];
    cbn [step].
  - cbn in Hcur; subst seen; unfold refreshScore.
    destruct (String.eqb (talentUUID props) "" || isRefreshing (state c))
      eqn:Hg; [split; assumption|].
    apply orb_false_iff in Hg as [_ Hidle].
    assert (inFlight c = []) as Hnil.
    { destruct (inFlight c) as [|p r] eqn:Hin; [reflexivity|].
      destruct Hfly as (_ & _ & _ & Hflag & _); congruence. }
    split; cbn; [|congruence].
    intros _; repeat split; rewrite Hnil; exists props; reflexivity.
  - destruct (nth_error (inFlight c) i) as [p|] eqn:Hnth;
      [|unfold settle; rewrite Hnth; split; assumption].
    assert (inFlight c <> []) as Hne.
    { intros E; rewrite E in Hnth; destruct i; discriminate. }
    destruct (Hfly Hne) as (Hs & He & Href & Hflag & (p' & Hp')).
    assert (removeAt i (inFlight c) = []) as Hrest.
    { rewrite Hp' in Hnth |- *; destruct i as [|j]; [reflexivity|].
      destruct j; discriminate. }
    unfold settle; rewrite Hnth, Hrest.
    destruct outcome as [result|reason]; [destruct (success result)|];
      split; cbn; try congruence; intros _; repeat split; assumption.
  - split; cbn; [|congruence].
    intros Hne; destruct (Hfly Hne) as (Hs & _ & Href & Hflag & Hone).
    repeat split; assumption.
  - split; cbn; assumption.
Qed.

Lemma settled_run (events : list Event) :
  forall c, allThroughCurrentRender events c -> settled c ->
            settled (run events c).
Proof.
  induction events as [|e t IH]; intros c Hall Hc; cbn; [exact Hc|].
  destruct Hall as [He Ht].
  apply IH; [exact Ht|apply settled_step; assumption].
Qed.

(** X16.  As long as every call of [refreshScore] goes through the
    closure of the current render, the two messages are never shown
    together: an error message comes with no success message, an idle
    controller and nothing in flight; and while a request is in flight
    neither message is shown and the flag is set. *)
Theorem messages_never_together (events : list Event) :
  allThroughCurrentRender events initial ->
  let c := run events initial in
  (error (state c) <> None ->
   successMessage (state c) = None /\ isRefreshing (state c) = false
   /\ inFlight c = [])
  /\ (inFlight c <> [] ->
      successMessage (state c) = None /\ error (state c) = None
      /\ isRefreshing (state c) = true).
Proof.
  intros Hall c.
  destruct (settled_run events initial Hall settled_initial) as [Hfly Herr].
  fold c in Hfly, Herr; split; [exact Herr|].
  intros Hne; destruct (Hfly Hne) as (Hs & He & _ & Hflag & _).
  repeat split; assumption.
Qed.

Lemma messages_witness :
  let c := run [Refresh sampleProps false; Settle 0 refused;
                Refresh sampleProps false; Settle 0 refused] initial in
  successMessage (state c) = None /\ isRefreshing (state c) = false
  /\ inFlight c = [].
Proof.
  intros c.
  assert (allThroughCurrentRender
            [Refresh sampleProps false; Settle 0 refused;
             Refresh sampleProps false; Settle 0 refused] initial) as Hall.
  { cbn; tauto. }
  destruct (messages_never_together _ Hall) as [Herr _].
  apply Herr; discriminate.
Defined.

(** Two calls through the closure of one render, the first failing and
    the second succeeding: both messages are shown together, which is why
    the statement above asks for calls through the current render. *)
Example same_render_calls_show_both_messages :
  let c := run [Refresh sampleProps false; Refresh sampleProps false;
                Settle 0 refused; Settle 0 succeeded] initial in
  error (state c) = Some "Cooldown active"
  /\ successMessage (state c) = Some "Calculation enqueued".
Proof. split; reflexivity. Qed.

(** X17.  A failed refresh can be tried again: as long as every call goes
    through the closure of the current render, whenever an error message
    is shown the next [refresh()] with an identifier, through the current
    render, is accepted; it clears the message and its request is the
    only one in flight. *)
Theorem failed_refresh_can_be_retried (events : list Event) (props : Props) :
  allThroughCurrentRender events initial ->
  let c := run events initial in
  error (state c) <> None ->
  talentUUID props <> "" ->
  let c' := step c (Refresh props (isRefreshing (state c))) in
  inFlight c' = [props]
  /\ isRefreshing (state c') = true
  /\ error (state c') = None
  /\ successMessage (state c') = None.
Proof.
  intros Hall c Herror Hid c'.
  destruct (settled_run events initial Hall settled_initial) as [_ Herr].
  fold c in Herr; destruct (Herr Herror) as (_ & Hidle & Hnil).
  subst c'; cbn [step]; unfold refreshScore.
  apply String.eqb_neq in Hid; rewrite Hid, Hidle, Hnil.
  repeat split; reflexivity.
Qed.

Lemma retry_witness :
  let c := run [Refresh sampleProps false; Settle 0 refused] initial in
  let c' := step c (Refresh sampleProps (isRefreshing (state c))) in
  inFlight c' = [sampleProps]
  /\ isRefreshing (state c') = true
  /\ error (state c') = None
  /\ successMessage (state c') = None.
Proof.
  apply (failed_refresh_can_be_retried
           [Refresh sampleProps false; Settle 0 refused] sampleProps);
    [cbn; tauto|discriminate|discriminate].
Defined.

(** X18.  As long as every call of [refreshScore] goes through the
    closure of the current render, the completion callback is scheduled
    once for every call that succeeds and was given a callback, and for
    no other event: the once-per-cycle guard never holds it back, a
    failure never schedules it, and only the timer's firing takes it off
    again. *)
Theorem callback_scheduled_once_per_success (events : list Event)
        (e : Event) :
  allThroughCurrentRender events initial ->
  let c := run events initial in
  timers (step c e)
  = match e with
    | Settle i (Normal result) =>
        match nth_error (inFlight c) i with
        | Some props =>
            if success result && onSuccess props then S (timers c)
            else timers c
        | None => timers c
        end
    | TimerFires => pred (timers c)
    | _ => timers c
    end.
Proof.
  intros Hall c.
  destruct (settled_run events initial Hall settled_initial) as [Hfly _].
  fold c in Hfly.
  destruct e as [props seen|i [result|reason]| |]; cbn [step].
  - unfold refreshScore.
    destruct (String.eqb (talentUUID props) "" || seen); reflexivity.
  - unfold settle.
    destruct (nth_error (inFlight c) i) as [p|] eqn:Hnth; [|reflexivity].
    assert (inFlight c <> []) as Hne.
    { intros E; rewrite E in Hnth; destruct i; discriminate. }
    destruct (Hfly Hne) as (_ & _ & Href & _).
    destruct (success result); cbn; [|reflexivity].
    rewrite Href; destruct (onSuccess p); reflexivity.
  - unfold settle; destruct (nth_error (inFlight c) i); reflexivity.
  - reflexivity.
  - reflexivity.
Qed.

Lemma callback_witness :
  timers (run [Refresh sampleProps false; Settle 0 succeeded] initial)
  = 1%nat
  /\ timers (run [Refresh sampleProps false; Settle 0 refused] initial)
     = 0%nat.
Proof.
  split.
  - exact (callback_scheduled_once_per_success
             [Refresh sampleProps false] (Settle 0 succeeded)
             (conj eq_refl I)).
  - exact (callback_scheduled_once_per_success
             [Refresh sampleProps false] (Settle 0 refused)
             (conj eq_refl I)).
Defined.

(** Two successful calls through the closure of one render: the ref is
    one cell for both, so the callback of the second is held back. *)
Example same_render_calls_schedule_once :
  timers (run [Refresh sampleProps false; Refresh sampleProps false;
               Settle 0 succeeded; Settle 0 succeeded] initial) = 1%nat.
Proof. reflexivity. Qed.

End RefreshFacts.

(* ================================================================== *)
(** * More on the share-image route *)
(* ================================================================== *)

Module RouteFacts.

Import JSNumber JSString JSError ShareImage.
Local Open Scope string_scope.

Lemma numberOrZero_number (x : option float) :
  isNaN (numberOrZero x) = false.
Proof.
  unfold numberOrZero; destruct x as [v|]; [|reflexivity].
  destruct (PrimFloat.eqb v 0) eqn:Hz; cbn [orb]; [reflexivity|].
  destruct (isNaN v) eqn:Hn; [reflexivity|exact Hn].
Qed.

Lemma loadFonts_all (env : Env) (buffers : list Bytes) :
  loadFonts env = Normal buffers <->
  exists regular bold semiBold extraBold,
    fetchFont env "Cy Regular.ttf" = Normal regular
    /\ fetchFont env "Cy Bold.ttf" = Normal bold
    /\ fetchFont env "Cy SemiBold.ttf" = Normal semiBold
    /\ fetchFont env "Cy ExtraBold.ttf" = Normal extraBold
    /\ buffers = [regular; bold; semiBold; extraBold].
Proof.
  unfold loadFonts; split.
  - destruct (fetchFont env "Cy Regular.ttf") as [b1|]; cbn; [|discriminate].
    destruct (fetchFont env "Cy Bold.ttf") as [b2|]; cbn; [|discriminate].
    destruct (fetchFont env "Cy SemiBold.ttf") as [b3|]; cbn; [|discriminate].
    destruct (fetchFont env "Cy ExtraBold.ttf") as [b4|]; cbn; [|discriminate].
    intros H; injection H as <-; exists b1, b2, b3, b4.
    repeat split; reflexivity.
  - intros (b1 & b2 & b3 & b4 & -> & -> & -> & -> & ->); reflexivity.
Qed.

(** X13.  [GET] answers with an image exactly when the whole pipeline holds:
    the profile response is [ok] and parses, the exchange rate and the
    four fonts load, and the renderer returns; the image is the
    renderer's output for the layout composed from the profile. *)
Theorem image_iff_pipeline_holds (env : Env) (talentUUID : string)
        (png : Bytes) :
  GET env talentUUID = Image png
  <-> exists response profileData ethPrice regular bold semiBold extraBold
             layout,
        getProfile env talentUUID = Normal response
        /\ ok response = true
        /\ json response = Normal profileData
        /\ getEthUsdcPrice env = Normal ethPrice
        /\ fetchFont env "Cy Regular.ttf" = Normal regular
        /\ fetchFont env "Cy Bold.ttf" = Normal bold
        /\ fetchFont env "Cy SemiBold.ttf" = Normal semiBold
        /\ fetchFont env "Cy ExtraBold.ttf" = Normal extraBold
        /\ composeLayout env talentUUID profileData = Normal layout
        /\ fonts layout = [regular; bold; semiBold; extraBold]
        /\ renderImage env layout = Normal png.
Proof.
  unfold GET, attempt, cachedProfile; split.
  - destruct (getProfile env talentUUID) as [response|]; cbn;
      [|discriminate].
    destruct (ok response) eqn:Hok; cbn; [|discriminate].
    destruct (json response) as [profileData|] eqn:Hjson; cbn;
      [|discriminate].
    destruct (composeLayout env talentUUID profileData) as [layout|] eqn:Hl;
      cbn; [|discriminate].
    destruct (renderImage env layout) as [png'|] eqn:Hr; cbn;
      [|discriminate].
    intros H; injection H as <-.
    pose proof Hl as Hl'; unfold composeLayout in Hl'.
    destruct (getEthUsdcPrice env) as [ethPrice|]; cbn in Hl';
      [|discriminate].
    destruct (loadFonts env) as [buffers|] eqn:Hfonts; cbn in Hl';
      [|discriminate].
    apply loadFonts_all in Hfonts
      as (b1 & b2 & b3 & b4 & H1 & H2 & H3 & H4 & ->).
    exists response, profileData, ethPrice, b1, b2, b3, b4, layout.
    injection Hl' as <-; cbn [fonts].
    repeat split; try assumption; reflexivity.
  - intros (response & profileData & ethPrice & b1 & b2 & b3 & b4 & layout
            & -> & Hok & Hjson & _ & _ & _ & _ & _ & Hl & _ & Hr).
    cbn; rewrite Hok; cbn; rewrite Hjson; cbn; rewrite Hl; cbn.
    rewrite Hr; reflexivity.
Qed.

(** X14.  The data gathering tolerates failures: once the exchange rate and
    the four fonts load, a layout is composed whatever the three services
    do.  A failed credentials service shows as zero earnings, a failed
    score service as score 0, a failed social service as the followers of
    an empty list of accounts. *)
Theorem services_fail_soft (env : Env) (talentUUID : string)
        (profileData : Profile) (ethPrice : float)
        (regular bold semiBold extraBold : Bytes) :
  getEthUsdcPrice env = Normal ethPrice ->
  fetchFont env "Cy Regular.ttf" = Normal regular ->
  fetchFont env "Cy Bold.ttf" = Normal bold ->
  fetchFont env "Cy SemiBold.ttf" = Normal semiBold ->
  fetchFont env "Cy ExtraBold.ttf" = Normal extraBold ->
  exists layout,
    composeLayout env talentUUID profileData = Normal layout
    /\ fonts layout = [regular; bold; semiBold; extraBold]
    /\ (forall reason,
           getCredentialsForTalentId env talentUUID = Throws reason ->
           totalEarnings layout = 0%float)
    /\ (forall reason,
           getCreatorScoreForTalentId env talentUUID = Throws reason ->
           creatorScore layout = 0%float)
    /\ (forall reason,
           getSocialAccountsForTalentId env talentUUID = Throws reason ->
           totalFollowers layout = calculateTotalFollowers env []).
Proof.
  intros Hprice H1 H2 H3 H4.
  assert (loadFonts env = Normal [regular; bold; semiBold; extraBold]) as Hf.
  { apply loadFonts_all; exists regular, bold, semiBold, extraBold.
    repeat split; assumption. }
  unfold composeLayout; rewrite Hprice; cbn; rewrite Hf; cbn.
  eexists; split; [reflexivity|]; cbn.
  split; [reflexivity|].
  repeat split; intros reason ->; reflexivity.
Qed.

(** X15.  Whatever is rendered shows numbers: the score of a layout is never
    NaN (a missing, zero or NaN score shows as 0) and its earnings are
    never negative. *)
Theorem rendered_numbers_are_sound (env : Env) (talentUUID : string)
        (profileData : Profile) (layout : Layout) :
  composeLayout env talentUUID profileData = Normal layout ->
  isNaN (creatorScore layout) = false
  /\ le 0 (totalEarnings layout) = true.
Proof.
  unfold composeLayout.
  destruct (getEthUsdcPrice env) as [ethPrice|]; cbn; [|discriminate].
  destruct (loadFonts env) as [buffers|]; cbn; [|discriminate].
  intros H; injection H as <-; cbn [creatorScore totalEarnings].
  split; [apply numberOrZero_number|apply Earnings.totalEarnings_nonneg].
Qed.

Lemma services_witness :
  exists layout,
    composeLayout degradedEnv "7f3c2a10-talent" sampleProfile = Normal layout
    /\ totalEarnings layout = 0%float
    /\ creatorScore layout = 0%float
    /\ totalFollowers layout = 12%float.
Proof.
  destruct (services_fail_soft degradedEnv "7f3c2a10-talent" sampleProfile
              2500 [0%N; 1%N] [0%N; 1%N] [0%N; 1%N] [0%N; 1%N])
    as (layout & Hl & _ & He & Hs & Hf); try reflexivity.
  exists layout; split; [exact Hl|].
  split; [apply (He OtherValue); reflexivity|].
  split; [apply (Hs OtherValue); reflexivity|].
  apply (Hf OtherValue); reflexivity.
Defined.

Lemma rendered_numbers_witness :
  exists layout,
    composeLayout sampleEnv "7f3c2a10-talent" sampleProfile = Normal layout
    /\ isNaN (creatorScore layout) = false
    /\ le 0 (totalEarnings layout) = true.
Proof.
  destruct (composeLayout sampleEnv "7f3c2a10-talent" sampleProfile)
    as [layout|] eqn:Hl; [|discriminate].
  exists layout; split; [reflexivity|].
  exact (rendered_numbers_are_sound sampleEnv "7f3c2a10-talent"
           sampleProfile layout Hl).
Defined.

End RouteFacts.

(* ================================================================== *)
(** * How the score lookups compose *)
(* ================================================================== *)

Module LookupFacts.

Import JSNumber JSString JSError ScoreClient ScoreServices.
Local Open Scope string_scope.

Lemma mapFrom_map {A B C : Type} (g : nat -> B -> C) (h : A -> B)
      (l : list A) :
  forall i, mapFrom i (fun j a => g j (h a)) l = mapFrom i g (map h l).
Proof.
  induction l as [|x t IH]; intros i; cbn; [|rewrite IH]; reflexivity.
Qed.

Section Lookups.

Variable firstRange : LevelRange.
Variable otherRanges : list LevelRange.
Variable CREATOR : string.

(** X6.  The lookup does not see the case of the addresses: two lists that
    agree once lower-cased send the same requests and get the same
    record. *)
Theorem lookup_ignores_case
        (net : nat -> string -> string -> FetchOutcome)
        (addresses1 addresses2 : list string) (slug : string) :
  map toLowerCase addresses1 = map toLowerCase addresses2 ->
  scoresOf firstRange otherRanges net addresses1 slug
  = scoresOf firstRange otherRanges net addresses2 slug
  /\ getHighestScore firstRange otherRanges net addresses1 slug
     = getHighestScore firstRange otherRanges net addresses2 slug.
Proof.
  intros Hlow.
  assert (scoresOf firstRange otherRanges net addresses1 slug
          = scoresOf firstRange otherRanges net addresses2 slug) as Hs.
  { unfold scoresOf.
    rewrite (mapFrom_map
               (fun i a => getScoreForAddress firstRange otherRanges
                             (net i) a slug) toLowerCase addresses1 0).
    rewrite (mapFrom_map
               (fun i a => getScoreForAddress firstRange otherRanges
                             (net i) a slug) toLowerCase addresses2 0).
    rewrite Hlow; reflexivity. }
  split; [exact Hs|].
  unfold getHighestScore.
  destruct addresses1 as [|a1 r1], addresses2 as [|a2 r2];
    try discriminate; [reflexivity|].
  rewrite Hs; reflexivity.
Qed.

(** X7.  What the share-image route shows of the score service: the [score]
    of its record, or 0 when that is missing, zero or NaN.  A fetch by
    talent id that failed, for whatever reason, shows as 0. *)
Theorem failed_score_fetch_shows_zero (env : TalentIdEnv)
        (talentId : string) :
  let r := getCreatorScoreForTalentId firstRange otherRanges CREATOR
                                      env talentId in
  match error r with
  | Some _ => ShareImage.numberOrZero (Some (score r)) = 0%float
  | None =>
      ShareImage.numberOrZero (Some (score r)) = score r
      \/ ShareImage.numberOrZero (Some (score r)) = 0%float
  end
  /\ isNaN (ShareImage.numberOrZero (Some (score r))) = false.
Proof.
  intros r; split; [|apply RouteFacts.numberOrZero_number].
  subst r; unfold getCreatorScoreForTalentId.
  destruct (if isClient env then clientFetch env talentId CREATOR
            else serverFetch env talentId CREATOR) as [reason|data].
  - reflexivity.
  - assert (forall s : ScoreRecord,
               ShareImage.numberOrZero (Some (score s)) = score s
               \/ ShareImage.numberOrZero (Some (score s)) = 0%float) as Hor.
    { intros s; unfold ShareImage.numberOrZero.
      destruct (PrimFloat.eqb (score s) 0 || isNaN (score s));
        [right|left]; reflexivity. }
    destruct (data_error data) as [message|]; [|apply Hor].
    destruct (truthy (Some message)); [reflexivity|apply Hor].
Qed.

End Lookups.

Lemma lookup_case_witness :
  getHighestScore sampleFirst sampleOthers sampleNet
                  ["0xAA01"; "0xBB02"] "creator_score"
  = getHighestScore sampleFirst sampleOthers sampleNet
                    ["0xaa01"; "0xbB02"] "creator_score".
Proof.
  apply (lookup_ignores_case sampleFirst sampleOthers sampleNet
           ["0xAA01"; "0xBB02"] ["0xaa01"; "0xbB02"] "creator_score").
  reflexivity.
Defined.

End LookupFacts.
